(** * Text-to-SQL core: the generation-and-refinement pipeline of [core_fr.py]

    A shallow embedding of [SQLGenerator.generate], [_refine_with_openai],
    [_strip_fence] and [text_to_sql], together with the Python string
    methods they call ([str.strip], [str.splitlines], [str.startswith],
    [str.split], [str.join], [in]). *)

From Stdlib Require Import String Ascii.
From Stdlib Require Import List NArith Bool Arith Lia.
Import ListNotations.

(** ** Python strings

    A Python [str] is a sequence of Unicode code points; a code point is
    kept as its number. *)

Definition char := N.
Definition str := list char.

(** A literal of the source, written with Rocq's byte strings (all the
    literals of [core_fr.py] that matter here are ASCII). *)
Definition py (s : string) : str := map N_of_ascii (list_ascii_of_string s).

Definition LF : char := 10%N.
Definition CR : char := 13%N.

(** [str.isspace] on one code point: the characters [str.strip()] removes
    (CPython's [_PyUnicode_IsWhitespace]). *)
Definition isspace (c : char) : bool :=
  ((9 <=? c) && (c <=? 13) || (28 <=? c) && (c <=? 32)
   || (c =? 133) || (c =? 160) || (c =? 5760)
   || (8192 <=? c) && (c <=? 8202)
   || (c =? 8232) || (c =? 8233) || (c =? 8239) || (c =? 8287)
   || (c =? 12288))%N.

(** The line boundaries of [str.splitlines] (CPython's
    [_PyUnicode_IsLinebreak]). *)
Definition islinebreak (c : char) : bool :=
  ((10 <=? c) && (c <=? 13) || (28 <=? c) && (c <=? 30)
   || (c =? 133) || (c =? 8232) || (c =? 8233))%N.

Module Str.

(** [s.startswith(p)] *)
Fixpoint startswith (s p : str) : bool :=
  match p, s with
  | [], _ => true
  | _ :: _, [] => false
  | a :: p', b :: s' => (a =? b)%N && startswith s' p'
  end.

(** [s.lstrip()] *)
Fixpoint lstrip (s : str) : str :=
  match s with
  | [] => []
  | c :: s' => if isspace c then lstrip s' else s
  end.

(** [s.rstrip()] *)
Definition rstrip (s : str) : str := rev (lstrip (rev s)).

(** [s.strip()]: whitespace is dropped at both ends. *)
Definition strip (s : str) : str := rstrip (lstrip s).

(** [s.splitlines()] (no [keepends]): the text is cut at every line
    boundary; a boundary that ends the text opens no further line. *)
Fixpoint splitlines (s : str) : list str :=
  match s with
  | [] => []
  | c :: s' =>
      if islinebreak c then
        [] :: match s' with
              | d :: s'' => if ((c =? CR) && (d =? LF))%N then splitlines s''
                            else splitlines s'
              | [] => []
              end
      else
        match splitlines s' with
        | [] => [[c]]
        | l :: ls => (c :: l) :: ls
        end
  end.

(** [sep.join(ls)] *)
Fixpoint join (sep : str) (ls : list str) : str :=
  match ls with
  | [] => []
  | [l] => l
  | l :: ls' => l ++ sep ++ join sep ls'
  end.

(** [sub in s] *)
Fixpoint contains (s sub : str) : bool :=
  startswith s sub ||
  match s with
  | [] => false
  | _ :: s' => contains s' sub
  end.

(** The first occurrence of [sep] in [s], as the text before it and the
    text after it. *)
Fixpoint partition (s sep : str) : option (str * str) :=
  if startswith s sep then Some ([], skipn (length sep) s)
  else match s with
       | [] => None
       | c :: s' =>
           match partition s' sep with
           | Some (a, b) => Some (c :: a, b)
           | None => None
           end
       end.

(** [s.split(sep)] for a non-empty [sep]: the text is scanned from the
    left and cut at each occurrence found, the scan resuming after it.
    Every cut consumes at least one character, so [n = len(s)] rounds are
    enough (see [split_fuel_enough]). *)
Fixpoint split_fuel (n : nat) (s sep : str) : list str :=
  match n with
  | 0 => [s]
  | S n' =>
      match partition s sep with
      | None => [s]
      | Some (a, b) => a :: split_fuel n' b sep
      end
  end.

Definition split (s sep : str) : list str := split_fuel (length s) s sep.

End Str.

Import Str.

(** ** The source *)

Local Open Scope string_scope.
Local Open Scope list_scope.

(** ** Exceptions and printed output

    A computation of the source either returns a value or raises; what it
    prints is collected next to its outcome. Only instances of Python's
    [Exception] are modelled. *)

Inductive exn_kind : Type :=
  | APIConnectionError
  | AuthenticationError
  | APITimeoutError
  | IndexError
  | AttributeError
  | ImportError
  | TypeError
  | RuntimeError.

Record exn : Type := Exn { kind : exn_kind; message : str }.

Inductive result (A : Type) : Type :=
  | Ok (a : A)
  | Raise (e : exn).

Arguments Ok {A} a.
Arguments Raise {A} e.

Module IO.

Definition io (A : Type) : Type := (result A * list str)%type.

Definition ret {A} (a : A) : io A := (Ok a, []).

Definition bind {A B} (m : io A) (f : A -> io B) : io B :=
  match m with
  | (Ok a, out) => let '(r, out') := f a in (r, out ++ out')
  | (Raise e, out) => (Raise e, out)
  end.

Definition lift {A} (r : result A) : io A := (r, []).

(** [print(line)] *)
Definition print (line : str) : io unit := (Ok tt, [line]).

(** [try: m except Exception as e: handler e] *)
Definition try_except {A} (m : io A) (handler : exn -> io A) : io A :=
  match m with
  | (Ok a, out) => (Ok a, out)
  | (Raise e, out) => let '(r, out') := handler e in (r, out ++ out')
  end.

(** The value a computation returns, or the exception it raises. *)
Definition value {A} (m : io A) : result A := fst m.

End IO.

Import IO.

Notation "x <- m ;; k" := (bind m (fun x => k))
  (at level 61, m at next level, right associativity).

(** ** 1. Offline generator *)

(** The lines of the f-string of [SQLGenerator.generate] up to the
    replacement field [{request}]. *)
Definition prompt_head_lines : list string :=
  [ "### SQL Generation";
    "# Schema:";
    "#   users(user_id INT, first_name VARCHAR, last_name VARCHAR, email VARCHAR, signup_date DATE)";
    "#   orders(order_id INT, user_id INT, order_total FLOAT, order_date DATE)";
    "#   products(product_id INT, name VARCHAR, price FLOAT)";
    "";
    "# Examples:";
    "# Input: Find total number of orders placed by each user.";
    "# Output: SELECT u.first_name, u.last_name, COUNT(o.order_id) AS total_orders FROM users u JOIN orders o ON u.user_id = o.user_id GROUP BY u.user_id;";
    "";
    "# Input: Create a table of employees with columns emp_id, emp_name, emp_address.";
    "# Output: CREATE TABLE employees (emp_id INT, emp_name VARCHAR(255), emp_address VARCHAR(255));";
    "";
    "# Now your request:";
    "# Input: " ].

Definition prompt_head : str := join [LF] (map py prompt_head_lines).

(** What follows the replacement field: the end of the request's line and
    the line [# Output:]. *)
Definition prompt_tail : str := LF :: py "# Output:".

(** The f-string: the request is formatted as it is. *)
Definition build_prompt (request : str) : str :=
  prompt_head ++ request ++ prompt_tail.

Definition output_marker : str := py "# Output:".

(** [out.split("# Output:")[-1] if "# Output:" in out else out] *)
Definition sql_part (out : str) : str :=
  if contains out output_marker then last (split out output_marker) []
  else out.

(** [not l.strip().startswith("#")] *)
Definition keep_line (l : str) : bool := negb (startswith (strip l) (py "#")).

(** The last three lines of [SQLGenerator.generate]. *)
Definition extract_output (out : str) : str :=
  let sql_part := sql_part out in
  let lines := filter keep_line (splitlines sql_part) in
  strip (join [LF] lines).

(** An object with a [generate] method, as [text_to_sql] uses
    [_generator]. *)
Record Generator : Type := { generate : str -> result str }.

(** [SQLGenerator]: [pipe prompt] stands for
    [self.pipe(prompt)[0]["generated_text"]], the text the loaded model
    returns for a prompt, or the exception the call raises. *)
Definition SQLGenerator (pipe : str -> result str) : Generator :=
  {| generate := fun request =>
       let prompt := build_prompt request in
       match pipe prompt with
       | Ok out => Ok (extract_output out)
       | Raise e => Raise e
       end |}.

(** ** 2. Optional OpenAI refinement: the remote round trip *)

Record chat_message : Type := { role : str; content : str }.

(** The arguments of [client.chat.completions.create]; the sampling
    temperature is the constant [0.0]. *)
Record chat_request : Type :=
  { model : str; messages : list chat_message }.

(** A completion: [choices[i].message.content], which may be [None]. *)
Record completion : Type := { choices : list (option str) }.

(** A client of the hosted service: [client.chat.completions.create]
    answers a request with a completion, or raises. *)
Definition client : Type := chat_request -> result completion.

(** The class [OpenAI] of the installed package: [from openai import
    OpenAI] followed by [OpenAI(api_key=key)] gives a client for the key,
    or raises (the package has no such class, the constructor rejects its
    arguments). *)
Definition service : Type := str -> result client.

Definition sys_msg : str :=
  py "You are a senior database engineer. "
  ++ py "Return ONLY one valid SQL statement. No explanations.".

Definition user_msg (prompt draft_sql : str) : str :=
  (py "User request: " ++ prompt ++ [LF])
  ++ (py "# Draft SQL (may be wrong):" ++ [LF] ++ draft_sql ++ [LF])
  ++ py "# Final SQL:".

Definition refine_request (prompt draft_sql : str) : chat_request :=
  {| model := py "gpt-4o-mini";
     messages := [ {| role := py "system"; content := sys_msg |};
                   {| role := py "user"; content := user_msg prompt draft_sql |} ] |}.

(** [resp.choices[0].message.content.strip()] *)
Definition response_text (resp : completion) : result str :=
  match choices resp with
  | [] => Raise (Exn IndexError (py "list index out of range"))
  | None :: _ =>
      Raise (Exn AttributeError
               (py "'NoneType' object has no attribute 'strip'"))
  | Some c :: _ => Ok (strip c)
  end.

(** The body of the [try] block, for the client built before it. *)
Definition remote_round_trip
    (client : client) (prompt draft_sql : str) : result str :=
  match client (refine_request prompt draft_sql) with
  | Ok resp => response_text resp
  | Raise e => Raise e
  end.

(** [not key] for the value of [os.getenv]. *)
Definition no_key (key : option str) : bool :=
  match key with
  | None => true
  | Some [] => true
  | Some (_ :: _) => false
  end.

(** ** 3. Strip the fences if present *)

(** The triple-backtick marker. *)
Definition fence : str := py "```".

(** [_strip_fence] *)
Definition _strip_fence (text : str) : str :=
  let t := strip text in
  if startswith t fence then
    let lines := splitlines t in
    let lines := tl lines in
    let lines :=
      match lines with
      | [] => lines
      | _ :: _ =>
          if startswith (strip (last lines [])) fence then removelast lines
          else lines
      end in
    strip (join [LF] lines)
  else t.

(** ** 4. The refiner and the public function *)

Section Pipeline.

(** The environment variable [OPENAI_API_KEY], the class [OpenAI] and the
    process-wide generator. *)
Variable getenv_OPENAI_API_KEY : option str.
Variable OpenAI : service.
Variable _generator : Generator.

(** [_refine_with_openai]: the import and the construction of the client
    come before the [try] statement, so what they raise is not caught. *)
Definition _refine_with_openai (prompt draft_sql : str) : io str :=
  match getenv_OPENAI_API_KEY with
  | None => ret draft_sql
  | Some [] => ret draft_sql
  | Some key =>
      client <- lift (OpenAI key) ;;
      try_except
        (lift (remote_round_trip client prompt draft_sql))
        (fun e =>
           _ <- print (py "[OpenAI ERROR]" ++ py " " ++ message e) ;;
           ret draft_sql)
  end.

(** [text_to_sql] *)
Definition text_to_sql (request : str) : io str :=
  let prompt := strip request in
  draft <- lift (generate _generator prompt) ;;
  refined <- _refine_with_openai prompt draft ;;
  ret (_strip_fence refined).

End Pipeline.

(** ** 5. The command-line loop of [core_fr.py] *)

(** What the terminal shows: the prompt of an [input] call, or the
    argument of a [print]. *)
Inductive cli_event : Type :=
  | Asked (prompt : str)
  | Printed (text : str).

(** How the loop ends: with [break] on a blank line, or with the
    [EOFError] that [input] raises when there is no line left, which
    nothing catches. *)
Inductive cli_end : Type :=
  | Break
  | EOFError.

Definition banner : str :=
  py "=== Text" ++ [8594%N] ++ py "SQL CLI ===" ++ [LF]
  ++ py "(leave blank to quit)" ++ [LF].

Section CLI.

Variable getenv_OPENAI_API_KEY : option str.
Variable OpenAI : service.
Variable _generator : Generator.

(** The [try] statement of the loop body, for the trimmed line [q]. *)
Definition cli_answer (q : str) : list cli_event :=
  let '(r, out) := text_to_sql getenv_OPENAI_API_KEY OpenAI _generator q in
  map Printed out
  ++ [Printed match r with
              | Ok sql => [LF] ++ sql ++ [LF]
              | Raise e => py "[ERROR] " ++ message e ++ [LF]
              end].

(** The [while True] loop over the lines typed. *)
Fixpoint cli_loop (inputs : list str) : list cli_event * cli_end :=
  match inputs with
  | [] => ([Asked (py "Prompt> ")], EOFError)
  | line :: rest =>
      let q := strip line in
      match q with
      | [] => ([Asked (py "Prompt> ")], Break)
      | _ :: _ =>
          let '(events, ending) := cli_loop rest in
          (Asked (py "Prompt> ") :: cli_answer q ++ events, ending)
      end
  end.

(** The block under [if __name__ == "__main__"]. *)
Definition cli_main (inputs : list str) : list cli_event * cli_end :=
  let '(events, ending) := cli_loop inputs in
  (Printed banner :: events, ending).

End CLI.

(** ** 6. The window of [gui_fr.py] *)

(** What a worker thread emits when its [run] ends. *)
Inductive signal : Type :=
  | Finished (text : str)
  | Failed (msg : str).

(** What the handlers do besides changing the window: the dialogs they
    show, the workers and the recorder they start, the file they write.
    These calls are taken to return. *)
Inductive effect : Type :=
  | Warning (title text : str)
  | Critical (title text : str)
  | StartSQLWorker (prompt : str)
  | RecorderStart
  | RecorderStopAndTranscribe
  | AskSaveFileName
  | WriteFile (filename content : str).

(** The window: the plain text of the two text edits, the three buttons,
    the caption of the record button, the status label and the recording
    flag. *)
Record App : Type :=
  { input_text : str;
    output_text : str;
    run_enabled : bool;
    voice_enabled : bool;
    save_enabled : bool;
    voice_caption : str;
    status : str;
    is_recording : bool }.

Definition start_caption : str := [127908%N] ++ py " Start Recording".
Definition stop_caption : str := [9632%N] ++ py " Stop Recording".

(** [Text2SQLApp.__init__] *)
Definition initial_app : App :=
  {| input_text := [];
     output_text := [];
     run_enabled := true;
     voice_enabled := true;
     save_enabled := true;
     voice_caption := start_caption;
     status := py "Ready";
     is_recording := false |}.

(** [_set_busy_sql] *)
Definition _set_busy_sql (msg : str) (app : App) : App :=
  {| input_text := input_text app;
     output_text := output_text app;
     run_enabled := false;
     voice_enabled := false;
     save_enabled := false;
     voice_caption := voice_caption app;
     status := msg;
     is_recording := is_recording app |}.

(** [_set_busy_rec] *)
Definition _set_busy_rec (msg : str) (app : App) : App :=
  {| input_text := input_text app;
     output_text := output_text app;
     run_enabled := false;
     voice_enabled := voice_enabled app;
     save_enabled := false;
     voice_caption := voice_caption app;
     status := msg;
     is_recording := is_recording app |}.

(** [_set_ready] *)
Definition _set_ready (error : bool) (app : App) : App :=
  {| input_text := input_text app;
     output_text := output_text app;
     run_enabled := true;
     voice_enabled := true;
     save_enabled := true;
     voice_caption := voice_caption app;
     status := if error then py "Error." else py "Done.";
     is_recording := is_recording app |}.

Definition set_input_text (text : str) (app : App) : App :=
  {| input_text := text;
     output_text := output_text app;
     run_enabled := run_enabled app;
     voice_enabled := voice_enabled app;
     save_enabled := save_enabled app;
     voice_caption := voice_caption app;
     status := status app;
     is_recording := is_recording app |}.

Definition set_output_text (text : str) (app : App) : App :=
  {| input_text := input_text app;
     output_text := text;
     run_enabled := run_enabled app;
     voice_enabled := voice_enabled app;
     save_enabled := save_enabled app;
     voice_caption := voice_caption app;
     status := status app;
     is_recording := is_recording app |}.

Definition set_status (text : str) (app : App) : App :=
  {| input_text := input_text app;
     output_text := output_text app;
     run_enabled := run_enabled app;
     voice_enabled := voice_enabled app;
     save_enabled := save_enabled app;
     voice_caption := voice_caption app;
     status := text;
     is_recording := is_recording app |}.

Definition set_recording (on : bool) (caption : str) (app : App) : App :=
  {| input_text := input_text app;
     output_text := output_text app;
     run_enabled := run_enabled app;
     voice_enabled := voice_enabled app;
     save_enabled := save_enabled app;
     voice_caption := caption;
     status := status app;
     is_recording := on |}.

Section Window.

(** The plain text a text edit gives back once [setPlainText] has put a
    text in it. *)
Variable shown : str -> str.

(** [on_convert] *)
Definition on_convert (app : App) : App * list effect :=
  let prompt := strip (input_text app) in
  match prompt with
  | [] => (app, [Warning (py "Input Required") (py "Please enter a prompt.")])
  | _ :: _ =>
      (_set_busy_sql (py "Generating SQL" ++ [8230%N]) app,
       [StartSQLWorker prompt])
  end.

(** [_on_sql_ready] *)
Definition _on_sql_ready (sql : str) (app : App) : App * list effect :=
  (_set_ready false (set_output_text (shown sql) app), []).

(** [_on_sql_error] *)
Definition _on_sql_error (msg : str) (app : App) : App * list effect :=
  (_set_ready true app, [Critical (py "Generation Error") msg]).

(** [on_record_toggle] *)
Definition on_record_toggle (app : App) : App * list effect :=
  if negb (is_recording app) then
    (_set_busy_rec (py "Recording" ++ [8230%N])
       (set_recording true stop_caption app),
     [RecorderStart])
  else
    (set_status (py "Transcribing" ++ [8230%N])
       (set_recording false start_caption app),
     [RecorderStopAndTranscribe]).

(** [_on_record_ready] *)
Definition _on_record_ready (text : str) (app : App) : App * list effect :=
  (_set_ready false (set_input_text (shown text) app), []).

(** [_on_record_error] *)
Definition _on_record_error (msg : str) (app : App) : App * list effect :=
  (_set_ready true app, [Critical (py "Speech Error") msg]).

(** [on_save], for the file name the save dialog returns (empty when the
    dialog is dismissed). *)
Definition on_save (filename : str) (app : App) : App * list effect :=
  let sql := strip (output_text app) in
  match sql with
  | [] =>
      (app, [Warning (py "Nothing to Save") (py "Generate some SQL first.")])
  | _ :: _ =>
      match filename with
      | [] => (app, [AskSaveFileName])
      | _ :: _ =>
          (set_status (py "Saved to " ++ filename) app,
           [AskSaveFileName; WriteFile filename sql])
      end
  end.

(** The slots of the window, as the buttons and the workers call them,
    and the user's typing in the input edit. *)
Inductive call : Type :=
  | OnConvert
  | OnSqlReady (sql : str)
  | OnSqlError (msg : str)
  | OnRecordToggle
  | OnRecordReady (text : str)
  | OnRecordError (msg : str)
  | OnSave (filename : str)
  | Typed (text : str).

Definition handle (c : call) (app : App) : App * list effect :=
  match c with
  | OnConvert => on_convert app
  | OnSqlReady sql => _on_sql_ready sql app
  | OnSqlError msg => _on_sql_error msg app
  | OnRecordToggle => on_record_toggle app
  | OnRecordReady text => _on_record_ready text app
  | OnRecordError msg => _on_record_error msg app
  | OnSave filename => on_save filename app
  | Typed text => (set_input_text text app, [])
  end.

(** The window after a sequence of calls. *)
Definition run_calls (cs : list call) (app : App) : App :=
  fold_left (fun a c => fst (handle c a)) cs app.

Variable getenv_OPENAI_API_KEY : option str.
Variable OpenAI : service.
Variable _generator : Generator.

(** [SQLWorker.run] *)
Definition SQLWorker_run (prompt : str) : signal :=
  match value (text_to_sql getenv_OPENAI_API_KEY OpenAI _generator prompt) with
  | Ok sql => Finished sql
  | Raise e => Failed (message e)
  end.

(** The slot connected to each signal of the SQL worker. *)
Definition deliver_sql (s : signal) (app : App) : App * list effect :=
  match s with
  | Finished sql => _on_sql_ready sql app
  | Failed msg => _on_sql_error msg app
  end.

(** A click on Convert, the run of the worker it starts, if any, and the
    delivery of the worker's signal. *)
Definition convert_round (app : App) : App * list effect :=
  let '(app1, effects) := on_convert app in
  match effects with
  | [StartSQLWorker prompt] =>
      let '(app2, effects2) := deliver_sql (SQLWorker_run prompt) app1 in
      (app2, effects ++ effects2)
  | _ => (app1, effects)
  end.

End Window.

(** Convert and Save are enabled together, Convert is disabled whenever
    the record button is, and the caption of the record button tells
    whether a recording is on. *)
Definition window_consistent (app : App) : Prop :=
  run_enabled app = save_enabled app
  /\ (voice_enabled app = false -> run_enabled app = false)
  /\ voice_caption app
     = if is_recording app then stop_caption else start_caption.

(** ** Auxiliary notions *)

(** A text that is empty or opens with a character [strip] keeps. *)
Definition ltrimmed (s : str) : Prop :=
  match s with
  | [] => True
  | c :: _ => isspace c = false
  end.

(** Where [splitlines] resumes after the boundary character [c]: a
    carriage return directly followed by a line feed is one boundary. *)
Definition after_break (c : char) (s : str) : str :=
  match s with
  | d :: s' => if ((c =? CR) && (d =? LF))%N then s' else s
  | [] => []
  end.

(** A text with no whitespace at its start and none at its end. *)
Definition no_outer_whitespace (s : str) : Prop :=
  match s with
  | [] => True
  | c :: _ => isspace c = false /\ isspace (last s c) = false
  end.

(** *** Lines, as the contract of the fence stripper speaks of them *)

Definition nonempty (l : str) : bool :=
  match l with
  | [] => false
  | _ :: _ => true
  end.

(** The last non-empty line among [ls], if there is one. *)
Fixpoint last_nonempty (ls : list str) : option str :=
  match ls with
  | [] => None
  | l :: ls' =>
      match last_nonempty ls' with
      | Some x => Some x
      | None => if nonempty l then Some l else None
      end
  end.

(** [ls] without its last non-empty line. *)
Fixpoint drop_last_nonempty (ls : list str) : list str :=
  match ls with
  | [] => []
  | l :: ls' =>
      match last_nonempty ls' with
      | Some _ => l :: drop_last_nonempty ls'
      | None => if nonempty l then ls' else l :: ls'
      end
  end.

(** A fence line, by the test the code applies to the last line: its
    trimmed content starts with the triple-backtick marker, whatever
    follows the marker. *)
Definition is_fence_line (l : str) : bool := startswith (strip l) fence.

(** The last non-empty line among [ls] is a fence line. *)
Definition closes_with_fence (ls : list str) : bool :=
  match last_nonempty ls with
  | Some l => is_fence_line l
  | None => false
  end.

(** A closing marker: a line whose trimmed content is the
    triple-backtick marker and nothing else. *)
Definition is_closing_marker (l : str) : bool :=
  if list_eq_dec N.eq_dec (strip l) fence then true else false.

(** The last non-empty line among [ls] is a closing marker. *)
Definition closes_with_marker (ls : list str) : bool :=
  match last_nonempty ls with
  | Some l => is_closing_marker l
  | None => false
  end.

(** The fence stripper that takes the last non-empty line away if and only
    if it is a closing marker. *)
Definition strip_fence_to_closing_marker (text : str) : str :=
  let t := strip text in
  if startswith t fence then
    let body := tl (splitlines t) in
    strip (join [LF] (if closes_with_marker body
                      then drop_last_nonempty body
                      else body))
  else t.

(** *** The text after the last occurrence of a marker *)

(** [after_last s m] is the text that follows the occurrence of [m] in
    [s] that starts furthest to the right, and [None] when [m] does not
    occur in [s]. *)
Fixpoint after_last (s m : str) : option str :=
  match s with
  | [] => if startswith [] m then Some [] else None
  | _ :: s' =>
      match after_last s' m with
      | Some r => Some r
      | None => if startswith s m then Some (skipn (length m) s) else None
      end
  end.

(** The text kept by the output extractor: what follows the last
    occurrence of the marker, or the whole text when there is none. *)
Definition text_after_last_marker (out : str) : str :=
  match after_last out output_marker with
  | Some r => r
  | None => out
  end.

(** *** The composition of the offline stages *)

(** FenceStripper (OutputExtractor (OfflineGenerator (PromptBuilder
    request))), for the model behind [pipe]. *)
Definition offline_chain (pipe : str -> result str) (request : str)
  : result str :=
  match pipe (build_prompt request) with
  | Ok out => Ok (_strip_fence (extract_output out))
  | Raise e => Raise e
  end.

(** *** Sample texts *)

(** The raw output of the extractor's example:
    ["# Output:\nSELECT 1;\n# trailing comment"]. *)
Definition sample_output : str :=
  py "# Output:" ++ [LF] ++ py "SELECT 1;" ++ [LF] ++ py "# trailing comment".

(** The lines of the template that start with [p]. *)
Definition template_lines (p : string) : list str :=
  filter (fun l => startswith l (py p)) (splitlines prompt_head).

(** *** The refiner's uncaught failure *)

(** The exception raised by the import and the construction of the
    client, when a credential is configured and they raise. *)
Definition client_failure (key : option str) (OpenAI : service)
  : option exn :=
  match key with
  | Some (c :: k) =>
      match OpenAI (c :: k) with
      | Ok _ => None
      | Raise e => Some e
      end
  | _ => None
  end.

(** *** Stand-ins for the model and the service *)

(** A service that cannot be reached: the client is built, its calls
    raise. *)
Definition unreachable_service : service :=
  fun _ => Ok (fun _ => Raise (Exn APIConnectionError (py "Connection error."))).

(** A service that answers every request with one text. *)
Definition answering_service (answer : str) : service :=
  fun _ => Ok (fun _ => Ok {| choices := [Some answer] |}).

(** An installed [openai] package that predates the class [OpenAI]: the
    import raises. *)
Definition outdated_package : service :=
  fun _ => Raise (Exn ImportError
                    (py "cannot import name 'OpenAI' from 'openai'")).

(** A generator that returns a fixed draft whatever the request. *)
Definition echo_generator (draft : str) : Generator :=
  {| generate := fun _ => Ok draft |}.

(** A model whose continuation of the prompt depends on the blank that
    opens the request. *)
Definition blank_sensitive_pipe (prompt : str) : result str :=
  Ok (prompt ++ if contains prompt (py "# Input:  ")
                then py " SELECT 1;"
                else py " SELECT 2;").

(** The request and the fenced draft of the end-to-end scenario. *)
Definition scenario_request : str :=
  py "Find total number of orders placed by each user.".

Definition scenario_draft : str :=
  py "```sql" ++ [LF] ++ py "SELECT COUNT(*) FROM orders;" ++ [LF] ++ py "```".

(** *** Kinds of text *)

(** A text of whitespace only. *)
Definition allspace (s : str) : bool := forallb isspace s.

(** A text with no line boundary in it. *)
Definition breakfree (s : str) : bool :=
  forallb (fun c => negb (islinebreak c)) s.

(** A text whose only line boundaries are line feeds. *)
Definition lf_only (s : str) : bool :=
  forallb (fun c => negb (islinebreak c) || (c =? LF)%N) s.

(** [m] occurs in [s]. *)
Definition occurs (m s : str) : Prop := exists a b, s = a ++ m ++ b.

(** * Properties *)

(** ** The string methods and the fence stripper on concrete texts *)

Example splitlines_mixed_boundaries :
  splitlines (py "a" ++ [LF; LF] ++ py "b" ++ [CR; LF] ++ py "c" ++ [LF])
  = [py "a"; []; py "b"; py "c"].
Proof. reflexivity. Qed.

Example strip_both_ends :
  strip ([LF] ++ py "  a b " ++ [CR; LF]) = py "a b".
Proof. reflexivity. Qed.

Example split_adjacent_separators :
  split (py "a#b#c##") (py "#") = [py "a"; py "b"; py "c"; []; []].
Proof. reflexivity. Qed.

(** An opening fence with no closing one: only the first line goes. *)
Example strip_fence_unclosed :
  _strip_fence (py "```sql" ++ [LF] ++ py "SELECT 1;") = py "SELECT 1;".
Proof. reflexivity. Qed.

(** The last line is tested the way the first is: whatever follows the
    three backticks, the line counts as a fence. *)
Example strip_fence_tagged_last_line :
  _strip_fence (py "```sql" ++ [LF] ++ py "SELECT 1;" ++ [LF] ++ py "  ```sql")
  = py "SELECT 1;".
Proof. reflexivity. Qed.

(** The interior lines are joined again with line feeds. *)
Example strip_fence_crlf :
  _strip_fence (py "```" ++ [CR; LF] ++ py "SELECT 1" ++ [CR; LF]
                ++ py "FROM t" ++ [CR; LF] ++ py "```")
  = py "SELECT 1" ++ [LF] ++ py "FROM t".
Proof. reflexivity. Qed.

(** ** Whitespace and [strip] *)

Lemma islinebreak_isspace (c : char) :
  islinebreak c = true -> isspace c = true.
Proof.
  unfold islinebreak, isspace.
  repeat rewrite orb_true_iff; repeat rewrite andb_true_iff.
  repeat rewrite N.leb_le; repeat rewrite N.eqb_eq.
  lia.
Qed.

Lemma nonspace_not_linebreak (c : char) :
  isspace c = false -> islinebreak c = false.
Proof.
  intros H. destruct (islinebreak c) eqn:E; [|reflexivity].
  apply islinebreak_isspace in E. congruence.
Qed.

Lemma lstrip_ltrimmed (s : str) : ltrimmed (lstrip s).
Proof.
  induction s as [|c s IH]; simpl; [exact I|].
  destruct (isspace c) eqn:E; [exact IH|simpl; exact E].
Qed.

Lemma lstrip_fixed (s : str) : ltrimmed s -> lstrip s = s.
Proof.
  destruct s as [|c s]; simpl; [reflexivity|].
  intros ->. reflexivity.
Qed.

Lemma lstrip_idem (s : str) : lstrip (lstrip s) = lstrip s.
Proof. apply lstrip_fixed, lstrip_ltrimmed. Qed.

Lemma lstrip_length (s : str) : length (lstrip s) <= length s.
Proof.
  induction s as [|c s IH]; simpl; [lia|].
  destruct (isspace c); simpl; lia.
Qed.

Lemma lstrip_snoc (s : str) (c : char) :
  lstrip (s ++ [c]) =
  match lstrip s with
  | [] => if isspace c then [] else [c]
  | r => r ++ [c]
  end.
Proof.
  induction s as [|a s IH]; simpl; [reflexivity|].
  destruct (isspace a); [exact IH|reflexivity].
Qed.

Lemma rstrip_cons (c : char) (s : str) :
  rstrip (c :: s) =
  match rstrip s with
  | [] => if isspace c then [] else [c]
  | r => c :: r
  end.
Proof.
  unfold rstrip. simpl rev at 2. rewrite lstrip_snoc.
  destruct (lstrip (rev s)) as [|a r] eqn:E; simpl.
  - destruct (isspace c); reflexivity.
  - rewrite rev_app_distr. simpl.
    destruct (rev r ++ [a]) eqn:E'; [|reflexivity].
    destruct (rev r); discriminate.
Qed.

Lemma rstrip_idem (s : str) : rstrip (rstrip s) = rstrip s.
Proof.
  unfold rstrip. rewrite rev_involutive, lstrip_idem. reflexivity.
Qed.

Lemma rstrip_length (s : str) : length (rstrip s) <= length s.
Proof.
  unfold rstrip. rewrite length_rev.
  etransitivity; [apply lstrip_length|]. rewrite length_rev. lia.
Qed.

Lemma rstrip_ltrimmed (s : str) : ltrimmed s -> ltrimmed (rstrip s).
Proof.
  destruct s as [|c s]; [intros _; exact I|].
  simpl. intros E. rewrite rstrip_cons, E.
  destruct (rstrip s); simpl; exact E.
Qed.

Lemma strip_ltrimmed (s : str) : ltrimmed (strip s).
Proof. apply rstrip_ltrimmed, lstrip_ltrimmed. Qed.

(** [strip] leaves nothing for a second [strip] to remove. *)
Lemma strip_idem (s : str) : strip (strip s) = strip s.
Proof.
  unfold strip at 1.
  rewrite (lstrip_fixed _ (strip_ltrimmed s)).
  unfold strip. apply rstrip_idem.
Qed.

Lemma strip_length (s : str) : length (strip s) <= length s.
Proof.
  unfold strip. etransitivity; [apply rstrip_length|apply lstrip_length].
Qed.

(** A stripped text is empty or closes with a character [strip] keeps. *)
Lemma strip_last (s : str) :
  strip s = [] \/ exists r c, strip s = r ++ [c] /\ isspace c = false.
Proof.
  unfold strip, rstrip.
  pose proof (lstrip_ltrimmed (rev (lstrip s))) as H.
  destruct (lstrip (rev (lstrip s))) as [|c r]; [left; reflexivity|].
  right. exists (rev r), c. split; [reflexivity|exact H].
Qed.

Lemma strip_no_outer_whitespace (s : str) : no_outer_whitespace (strip s).
Proof.
  pose proof (strip_ltrimmed s) as Hl.
  destruct (strip_last s) as [E|(r & c & E & Hc)]; rewrite E in *.
  - exact I.
  - unfold no_outer_whitespace.
    destruct (r ++ [c]) as [|a t] eqn:Ea; [exact I|].
    split; [exact Hl|]. rewrite <- Ea, last_last. exact Hc.
Qed.

(** ** [startswith] *)

Lemma startswith_app (p x : str) : startswith (p ++ x) p = true.
Proof.
  induction p as [|a p IH]; simpl; [destruct x; reflexivity|].
  rewrite N.eqb_refl. exact IH.
Qed.

Lemma startswith_elim (s p : str) :
  startswith s p = true -> s = p ++ skipn (length p) s.
Proof.
  revert s; induction p as [|a p IH]; intros s H; [reflexivity|].
  destruct s as [|b s]; [discriminate|].
  simpl in H. apply andb_true_iff in H as [E H].
  apply N.eqb_eq in E. subst b. simpl. f_equal. apply IH, H.
Qed.

Lemma startswith_nil_r (s : str) : startswith s [] = true.
Proof. destruct s; reflexivity. Qed.

(** ** [splitlines] and [join] *)

Lemma splitlines_break (c : char) (s : str) :
  islinebreak c = true ->
  splitlines (c :: s) = [] :: splitlines (after_break c s).
Proof.
  intros H. simpl. rewrite H.
  destruct s as [|d s]; [reflexivity|]. simpl.
  destruct ((c =? CR) && (d =? LF))%N; reflexivity.
Qed.

Lemma splitlines_char (c : char) (s : str) :
  islinebreak c = false ->
  splitlines (c :: s) =
  match splitlines s with
  | [] => [[c]]
  | l :: ls => (c :: l) :: ls
  end.
Proof. intros H. simpl. rewrite H. reflexivity. Qed.

Lemma after_break_length (c : char) (s : str) :
  length (after_break c s) <= length s.
Proof.
  destruct s as [|d s]; simpl; [lia|].
  destruct ((c =? CR) && (d =? LF))%N; simpl; lia.
Qed.

Lemma after_break_snoc (c d : char) (s : str) :
  islinebreak d = false ->
  after_break c (s ++ [d]) = after_break c s ++ [d].
Proof.
  intros H. destruct s as [|a s]; simpl.
  - destruct (N.eqb_spec d LF) as [->|_]; [discriminate H|].
    rewrite andb_false_r. reflexivity.
  - destruct ((c =? CR) && (a =? LF))%N; reflexivity.
Qed.

(** Induction along the way [splitlines] walks a text. *)
Lemma splitlines_ind (P : str -> Prop) :
  P [] ->
  (forall c s, islinebreak c = true -> P (after_break c s) -> P (c :: s)) ->
  (forall c s, islinebreak c = false -> P s -> P (c :: s)) ->
  forall s, P s.
Proof.
  intros Hnil Hbrk Hchr s.
  remember (length s) as n eqn:Hn.
  assert (Hle : length s <= n) by lia. clear Hn.
  revert s Hle. induction n as [|n IH]; intros s Hle.
  - destruct s; [exact Hnil|simpl in Hle; lia].
  - destruct s as [|c s]; [exact Hnil|]. simpl in Hle.
    destruct (islinebreak c) eqn:E.
    + apply Hbrk; [exact E|]. apply IH.
      pose proof (after_break_length c s). lia.
    + apply Hchr; [exact E|]. apply IH. lia.
Qed.

(** A text that closes with a character that is no line boundary has a
    last line, and that line closes with the same character. *)
Lemma splitlines_snoc (s : str) (c : char) :
  islinebreak c = false ->
  exists ls l, splitlines (s ++ [c]) = ls ++ [l ++ [c]].
Proof.
  intros Hc. induction s as [|a s Ha IH|a s Ha IH] using splitlines_ind.
  - exists [], []. simpl. rewrite Hc. reflexivity.
  - change ((a :: s) ++ [c]) with (a :: (s ++ [c])).
    rewrite (splitlines_break _ _ Ha), (after_break_snoc _ _ _ Hc).
    destruct IH as (ls & l & ->). exists ([] :: ls), l. reflexivity.
  - change ((a :: s) ++ [c]) with (a :: (s ++ [c])).
    rewrite (splitlines_char _ _ Ha).
    destruct IH as (ls & l & ->).
    destruct ls as [|l0 ls]; simpl.
    + exists [], (a :: l). reflexivity.
    + exists ((a :: l0) :: ls), l. reflexivity.
Qed.

Lemma join_cons (sep l : str) (ls : list str) :
  join sep (l :: ls) =
  l ++ match ls with [] => [] | _ :: _ => sep ++ join sep ls end.
Proof.
  destruct ls; simpl; [rewrite app_nil_r|]; reflexivity.
Qed.

Lemma join_tl_length (sep : str) (ls : list str) :
  length (join sep (tl ls)) + length (hd [] ls) <= length (join sep ls).
Proof.
  destruct ls as [|l ls]; [simpl; lia|].
  rewrite join_cons. simpl tl. simpl hd. rewrite length_app.
  destruct ls; [simpl; lia|]. rewrite length_app. lia.
Qed.

Lemma join_removelast_length (sep : str) (ls : list str) :
  length (join sep (removelast ls)) <= length (join sep ls).
Proof.
  induction ls as [|l ls IH]; [simpl; lia|].
  destruct ls as [|l' ls]; [simpl; lia|].
  change (removelast (l :: l' :: ls)) with (l :: removelast (l' :: ls)).
  rewrite (join_cons sep l (l' :: ls)), (join_cons sep l (removelast _)).
  rewrite !length_app.
  destruct (removelast (l' :: ls)) eqn:E; [simpl; lia|].
  rewrite length_app. lia.
Qed.

(** Joining the lines of a text again never makes it longer. *)
Lemma join_splitlines_length (s : str) :
  length (join [LF] (splitlines s)) <= length s.
Proof.
  induction s as [|c s Hc IH|c s Hc IH] using splitlines_ind.
  - simpl. lia.
  - rewrite (splitlines_break _ _ Hc), join_cons.
    pose proof (after_break_length c s).
    destruct (splitlines (after_break c s)); simpl in *; lia.
  - rewrite (splitlines_char _ _ Hc).
    destruct (splitlines s) as [|l ls]; [simpl; lia|].
    rewrite join_cons in *. simpl in *. lia.
Qed.

(** The first line of a text that opens with a character that is no
    line boundary opens with that character. *)
Lemma splitlines_first (c : char) (s : str) :
  islinebreak c = false ->
  exists l ls, splitlines (c :: s) = (c :: l) :: ls.
Proof.
  intros Hc. rewrite (splitlines_char _ _ Hc).
  destruct (splitlines s) as [|l ls]; eauto.
Qed.

(** ** 3. The fence stripper *)

Lemma strip_fence_unfenced (text : str) :
  startswith (strip text) fence = false -> _strip_fence text = strip text.
Proof. unfold _strip_fence. intros ->. reflexivity. Qed.

Lemma strip_fence_trimmed (text : str) :
  strip (_strip_fence text) = _strip_fence text.
Proof.
  unfold _strip_fence.
  destruct (startswith (strip text) fence); apply strip_idem.
Qed.

(** A text that starts with the marker opens with a backtick, which is
    no line boundary. *)
Lemma fence_head (s : str) :
  startswith s fence = true ->
  exists c t, s = c :: t /\ islinebreak c = false.
Proof.
  intros H. apply startswith_elim in H. rewrite H.
  exists 96%N. eexists. split; reflexivity.
Qed.

(** Stripping a fenced text removes at least its first line, so the
    result is shorter than the trimmed text. *)
Lemma strip_fence_shrinks (text : str) :
  startswith (strip text) fence = true ->
  length (_strip_fence text) < length (strip text).
Proof.
  intros H. unfold _strip_fence. rewrite H.
  pose proof (join_splitlines_length (strip text)) as Hlen.
  destruct (fence_head _ H) as (c & t & Et & Hc). rewrite Et in *.
  destruct (splitlines_first c t Hc) as (l & ls & Els).
  cbv zeta. rewrite Els in *. simpl tl.
  pose proof (join_tl_length [LF] ((c :: l) :: ls)) as Htl.
  simpl tl in Htl. simpl hd in Htl. simpl length in Htl at 2.
  assert (Hbody : forall ls', length (join [LF] ls') <= length (join [LF] ls) ->
                    length (strip (join [LF] ls')) < length (c :: t)).
  { intros ls' Hls'. pose proof (strip_length (join [LF] ls')). lia. }
  destruct ls as [|l1 ls1]; [apply Hbody; lia|].
  match goal with |- context [if ?b then _ else _] => destruct b end;
    apply Hbody.
  - apply join_removelast_length.
  - lia.
Qed.

Lemma last_nonempty_snoc (ls : list str) (l : str) :
  nonempty l = true -> last_nonempty (ls ++ [l]) = Some l.
Proof.
  intros H. induction ls as [|x ls IH]; simpl.
  - rewrite H. reflexivity.
  - rewrite IH. reflexivity.
Qed.

Lemma drop_last_nonempty_snoc (ls : list str) (l : str) :
  nonempty l = true -> drop_last_nonempty (ls ++ [l]) = ls.
Proof.
  intros H. induction ls as [|x ls IH]; simpl.
  - rewrite H. reflexivity.
  - rewrite (last_nonempty_snoc ls l H), IH. reflexivity.
Qed.

(** The lines of a trimmed text end with a non-empty line, and so do the
    lines left when the first one is taken away, if any is left. *)
Lemma trimmed_body_last (text : str) :
  tl (splitlines (strip text)) = [] \/
  exists ls l, tl (splitlines (strip text)) = ls ++ [l] /\ nonempty l = true.
Proof.
  destruct (strip_last text) as [->|(r & c & -> & Hc)]; [left; reflexivity|].
  destruct (splitlines_snoc r c (nonspace_not_linebreak c Hc)) as (ls & l & ->).
  destruct ls as [|l0 ls]; [left; reflexivity|].
  right. exists ls, (l ++ [c]). split; [reflexivity|].
  destruct l; reflexivity.
Qed.

(** C6: a text whose trimmed form does not start with the triple-backtick
    marker comes back from the fence stripper as its trimmed form, that
    is, unchanged apart from the whitespace at both ends; a text that is
    already trimmed comes back as it is. *)
Theorem strip_fence_unfenced_unchanged (text : str) :
  startswith (strip text) fence = false ->
  _strip_fence text = strip text /\
  (strip text = text -> _strip_fence text = text).
Proof.
  intros H. pose proof (strip_fence_unfenced text H) as E.
  split; [exact E|]. intros Ht. rewrite E. exact Ht.
Qed.

Lemma strip_fence_unfenced_unchanged_witness :
  let text := py "  SELECT 1;  " in
  startswith (strip text) fence = false /\ _strip_fence text = strip text.
Proof.
  cbv zeta. split; [reflexivity|].
  apply (strip_fence_unfenced_unchanged (py "  SELECT 1;  ")). reflexivity.
Defined.

(** C3, as the claim states it, fails: a doubly fenced text loses one
    fence at each application. *)
Lemma strip_fence_not_idempotent :
  let x := py "```" ++ [LF] ++ py "```" ++ [LF] ++ py "foo" in
  _strip_fence x = py "```" ++ [LF] ++ py "foo" /\
  _strip_fence (_strip_fence x) = py "foo" /\
  _strip_fence (_strip_fence x) <> _strip_fence x.
Proof.
  cbv zeta. split; [reflexivity|]. split; [reflexivity|].
  vm_compute. discriminate.
Qed.

(** C3 (amended): a second application of the fence stripper changes
    nothing exactly when the result of the first does not itself start
    with the triple-backtick marker; this is the case for every text
    whose trimmed form is unfenced. *)
Theorem strip_fence_idempotent_iff (x : str) :
  (_strip_fence (_strip_fence x) = _strip_fence x <->
   startswith (_strip_fence x) fence = false) /\
  (startswith (strip x) fence = false ->
   _strip_fence (_strip_fence x) = _strip_fence x).
Proof.
  assert (Hiff : _strip_fence (_strip_fence x) = _strip_fence x <->
                 startswith (_strip_fence x) fence = false).
  { split.
    - intros Heq.
      destruct (startswith (_strip_fence x) fence) eqn:E; [|reflexivity].
      rewrite <- (strip_fence_trimmed x) in E.
      pose proof (strip_fence_shrinks _ E) as Hlt.
      rewrite Heq, (strip_fence_trimmed x) in Hlt. lia.
    - intros E. rewrite <- (strip_fence_trimmed x) in E.
      rewrite (strip_fence_unfenced _ E). apply strip_fence_trimmed. }
  split; [exact Hiff|].
  intros H. apply Hiff. rewrite (strip_fence_unfenced x H). exact H.
Qed.

Lemma strip_fence_idempotent_iff_witness :
  let x := py "```sql" ++ [LF] ++ py "SELECT 1;" ++ [LF] ++ py "```" in
  startswith (_strip_fence x) fence = false /\
  _strip_fence (_strip_fence x) = _strip_fence x.
Proof.
  cbv zeta. split; [reflexivity|].
  apply (proj1 (strip_fence_idempotent_iff
                  (py "```sql" ++ [LF] ++ py "SELECT 1;" ++ [LF] ++ py "```"))).
  reflexivity.
Defined.

Lemma closing_marker_is_fence_line (l : str) :
  is_closing_marker l = true -> is_fence_line l = true.
Proof.
  unfold is_closing_marker, is_fence_line.
  destruct (list_eq_dec N.eq_dec (strip l) fence) as [->|]; [|discriminate].
  reflexivity.
Qed.

(** C7, as the claim states it, fails: a last line that carries text
    after the three backticks is no closing marker, and the fence stripper
    takes it away all the same. *)
Lemma strip_fence_drops_tagged_last_line :
  let text := py "```" ++ [LF] ++ py "SELECT 1;" ++ [LF]
              ++ py "```; DROP TABLE users;" in
  startswith (strip text) fence = true
  /\ last_nonempty (tl (splitlines (strip text)))
     = Some (py "```; DROP TABLE users;")
  /\ is_closing_marker (py "```; DROP TABLE users;") = false
  /\ strip_fence_to_closing_marker text
     = py "SELECT 1;" ++ [LF] ++ py "```; DROP TABLE users;"
  /\ _strip_fence text = py "SELECT 1;"
  /\ _strip_fence text <> strip_fence_to_closing_marker text.
Proof.
  cbv zeta. repeat split; try reflexivity. vm_compute. discriminate.
Qed.

(** C7 (amended): for a text whose trimmed form starts with the
    triple-backtick marker, the fence stripper takes the first line away
    and, if and only if the trimmed content of the last non-empty line of
    what is left starts with the marker (a closing marker, or the marker
    followed by any text), that line too; what it returns is the rest,
    joined by line feeds and trimmed.  A last non-empty line that is a
    closing marker is such a line. *)
Theorem strip_fence_fenced (text : str) :
  startswith (strip text) fence = true ->
  let body := tl (splitlines (strip text)) in
  _strip_fence text =
    strip (join [LF] (if closes_with_fence body
                      then drop_last_nonempty body
                      else body))
  /\ (closes_with_marker body = true -> closes_with_fence body = true).
Proof.
  intros H. cbv zeta. split.
  - unfold _strip_fence. rewrite H.
    destruct (trimmed_body_last text) as [E|(ls & l & E & Hl)]; rewrite E.
    + reflexivity.
    + unfold closes_with_fence, is_fence_line.
      rewrite (last_nonempty_snoc ls l Hl), (drop_last_nonempty_snoc ls l Hl).
      destruct (ls ++ [l]) as [|x xs] eqn:Eapp.
      * destruct ls; discriminate Eapp.
      * rewrite <- Eapp, last_last, removelast_last. reflexivity.
  - unfold closes_with_marker, closes_with_fence.
    destruct (last_nonempty (tl (splitlines (strip text)))); [|discriminate].
    apply closing_marker_is_fence_line.
Qed.

Lemma strip_fence_fenced_witness :
  let text := py "```sql" ++ [LF] ++ py "SELECT 1;" ++ [LF] ++ py "```" in
  startswith (strip text) fence = true /\ _strip_fence text = py "SELECT 1;".
Proof.
  cbv zeta. split; [reflexivity|].
  rewrite (proj1 (strip_fence_fenced
             (py "```sql" ++ [LF] ++ py "SELECT 1;" ++ [LF] ++ py "```")
             eq_refl)).
  reflexivity.
Defined.

(** ** [in], [split] and the last occurrence of a separator *)

Lemma contains_after_last (s m : str) :
  contains s m = match after_last s m with Some _ => true | None => false end.
Proof.
  induction s as [|c s IH].
  - cbn [contains after_last]. rewrite orb_false_r.
    destruct (startswith [] m); reflexivity.
  - cbn [contains after_last]. rewrite IH.
    destruct (after_last s m); [apply orb_true_r|].
    rewrite orb_false_r. destruct (startswith (c :: s) m); reflexivity.
Qed.

Lemma partition_Some (s m a b : str) :
  partition s m = Some (a, b) -> s = a ++ m ++ b.
Proof.
  revert a b. induction s as [|c s IH]; intros a b H.
  - cbn [partition] in H. destruct (startswith [] m) eqn:E; [|discriminate].
    injection H as <- <-. apply (startswith_elim _ _ E).
  - cbn [partition] in H. destruct (startswith (c :: s) m) eqn:E.
    + injection H as <- <-. apply (startswith_elim _ _ E).
    + destruct (partition s m) as [[a' b']|]; [|discriminate].
      injection H as <- <-. simpl. f_equal. apply IH. reflexivity.
Qed.

Lemma partition_None (s m : str) :
  partition s m = None -> after_last s m = None.
Proof.
  induction s as [|c s IH]; intros H; cbn [partition after_last] in *.
  - destruct (startswith [] m); [discriminate|reflexivity].
  - destruct (startswith (c :: s) m); [discriminate|].
    destruct (partition s m) as [[a b]|]; [discriminate|].
    rewrite IH; reflexivity.
Qed.

(** An occurrence further to the right wins. *)
Lemma after_last_app (a x m r : str) :
  after_last x m = Some r -> after_last (a ++ x) m = Some r.
Proof.
  intros H. induction a as [|c a IH]; [exact H|].
  simpl. rewrite IH. reflexivity.
Qed.

Lemma after_last_None_head (s m : str) :
  after_last s m = None -> startswith s m = false.
Proof.
  destruct s as [|c s]; cbn [after_last]; intros H.
  - destruct (startswith [] m); [discriminate|reflexivity].
  - destruct (after_last s m); [discriminate|].
    destruct (startswith (c :: s) m); [discriminate|reflexivity].
Qed.

Lemma after_last_None_tail (c : char) (s m : str) :
  after_last (c :: s) m = None -> after_last s m = None.
Proof.
  cbn [after_last]. destruct (after_last s m); [discriminate|reflexivity].
Qed.

(** [after_last] answers [None] only when the marker occurs nowhere. *)
Lemma after_last_None_inv (s m : str) :
  after_last s m = None -> forall pre r, s <> pre ++ m ++ r.
Proof.
  intros H pre. revert s H. induction pre as [|c pre IH]; intros s H r ->.
  - apply after_last_None_head in H. simpl in H.
    rewrite startswith_app in H. discriminate.
  - apply after_last_None_tail in H. exact (IH _ H r eq_refl).
Qed.

(** What [after_last] returns does follow an occurrence of the marker,
    and no occurrence starts further to the right. *)
Lemma after_last_spec (s m r : str) :
  after_last s m = Some r ->
  exists pre, s = pre ++ m ++ r /\
    forall pre' r', s = pre' ++ m ++ r' -> length pre' <= length pre.
Proof.
  revert r. induction s as [|c s IH]; intros r H; cbn [after_last] in H.
  - destruct m as [|h m]; [|discriminate].
    injection H as <-. exists []. split; [reflexivity|].
    intros pre' r' E'. destruct pre'; [simpl; lia|discriminate].
  - destruct (after_last s m) as [r0|] eqn:E0.
    + injection H as <-. destruct (IH _ eq_refl) as (pre & -> & Hmax).
      exists (c :: pre). split; [reflexivity|].
      intros pre' r' E'. destruct pre' as [|c' pre']; [simpl; lia|].
      injection E' as _ E'. specialize (Hmax _ _ E'). simpl. lia.
    + destruct (startswith (c :: s) m) eqn:E; [|discriminate].
      injection H as <-. exists []. split; [apply (startswith_elim _ _ E)|].
      intros pre' r' E'. destruct pre' as [|c' pre']; [simpl; lia|].
      injection E' as _ E'. exfalso.
      exact (after_last_None_inv _ _ E0 _ _ E').
Qed.

Lemma partition_shorter (s m a b : str) :
  m <> [] -> partition s m = Some (a, b) -> length b < length s.
Proof.
  intros Hm H. apply partition_Some in H. subst s.
  rewrite !length_app. destruct m; [contradiction|simpl; lia].
Qed.

Lemma split_fuel_more (m : str) (j i : nat) (s : str) :
  m <> [] -> length s <= i -> i <= j ->
  split_fuel j s m = split_fuel i s m.
Proof.
  intros Hm. revert i s. induction j as [|j IH]; intros i s Hs Hi.
  - assert (i = 0) by lia. subst. reflexivity.
  - destruct i as [|i]; cbn [split_fuel].
    + destruct (partition s m) as [[a b]|] eqn:E; [|reflexivity].
      apply (partition_shorter _ _ _ _ Hm) in E. lia.
    + destruct (partition s m) as [[a b]|] eqn:E; [|reflexivity].
      pose proof (partition_shorter _ _ _ _ Hm E).
      f_equal. apply IH; lia.
Qed.

(** The rounds of [split] never run out: more of them change nothing. *)
Lemma split_fuel_enough (n : nat) (s m : str) :
  m <> [] -> length s <= n -> split_fuel n s m = split s m.
Proof.
  intros Hm Hn. unfold split. apply split_fuel_more; [exact Hm|lia|exact Hn].
Qed.

Lemma last_cons_nonnil (x : str) (l : list str) :
  l <> [] -> last (x :: l) [] = last l [].
Proof. destruct l; [contradiction|reflexivity]. Qed.

Lemma split_fuel_nonnil (n : nat) (s m : str) : split_fuel n s m <> [].
Proof.
  destruct n; cbn [split_fuel]; [discriminate|].
  destruct (partition s m) as [[a b]|]; discriminate.
Qed.

(** A separator whose first character occurs nowhere else in it cannot
    overlap a copy of itself, so the left-to-right scan of [split] meets the
    occurrence that starts furthest to the right. *)
Section FirstCharUnique.

Variable h : char.
Variable m' : str.
Hypothesis first_unique : ~ In h m'.

Local Abbreviation m := (h :: m').

Lemma after_last_skip_inside (u b : str) :
  incl u m' -> after_last (u ++ b) m = after_last b m.
Proof.
  induction u as [|c u IH]; intros Hu; [reflexivity|].
  change ((c :: u) ++ b) with (c :: (u ++ b)). cbn [after_last].
  rewrite IH by (intros x Hx; apply Hu; right; exact Hx).
  destruct (after_last b m); [reflexivity|].
  cbn [startswith].
  destruct (N.eqb_spec h c) as [->|_]; [|reflexivity].
  exfalso. apply first_unique, Hu. left. reflexivity.
Qed.

Lemma skipn_length_app (a b : str) : skipn (length a) (a ++ b) = b.
Proof. induction a; simpl; auto. Qed.

Lemma after_last_at_marker (b : str) :
  after_last (m ++ b) m =
  Some (match after_last b m with Some r => r | None => b end).
Proof.
  change ((h :: m') ++ b) with (h :: (m' ++ b)).
  cbn [after_last]. rewrite after_last_skip_inside by apply incl_refl.
  destruct (after_last b m); [reflexivity|].
  change (h :: m' ++ b) with ((h :: m') ++ b).
  rewrite startswith_app, skipn_length_app. reflexivity.
Qed.

Lemma last_split_fuel (n : nat) (s : str) :
  length s <= n ->
  last (split_fuel n s m) [] =
  match after_last s m with Some r => r | None => s end.
Proof.
  revert s. induction n as [|n IH]; intros s Hn; cbn [split_fuel].
  - destruct s; [reflexivity|simpl in Hn; lia].
  - destruct (partition s m) as [[a b]|] eqn:E.
    + assert (Hm : m <> []) by discriminate.
      pose proof (partition_shorter _ _ _ _ Hm E) as Hb.
      apply partition_Some in E. subst s.
      rewrite last_cons_nonnil by apply split_fuel_nonnil.
      rewrite IH by lia.
      rewrite (after_last_app a _ _ _ (after_last_at_marker b)).
      reflexivity.
    + rewrite (partition_None _ _ E). reflexivity.
Qed.

Lemma last_split (s : str) :
  last (split s m) [] =
  match after_last s m with Some r => r | None => s end.
Proof. unfold split. apply last_split_fuel. lia. Qed.

End FirstCharUnique.

(** ** 1. The prompt and the output extractor *)

(** The marker begins with its only number sign. *)
Lemma output_marker_first_unique : ~ In 35%N (tl output_marker).
Proof.
  simpl. intros H. repeat (destruct H as [H|H]; [discriminate H|]). exact H.
Qed.

(** The code's [split(...)[-1]], guarded by [in], is the text after the
    last occurrence of the marker. *)
Lemma sql_part_after_last (out : str) :
  sql_part out = text_after_last_marker out.
Proof.
  unfold sql_part, text_after_last_marker.
  rewrite contains_after_last.
  pose proof (last_split _ _ output_marker_first_unique out) as L.
  change (35%N :: tl output_marker) with output_marker in L. rewrite L.
  destruct (after_last out output_marker); reflexivity.
Qed.

(** The text after an occurrence of the marker that no other occurrence
    follows is the text after the last occurrence. *)
Lemma text_after_last_marker_at (pre post : str) :
  contains post output_marker = false ->
  text_after_last_marker (pre ++ output_marker ++ post) = post.
Proof.
  intros H. unfold text_after_last_marker.
  rewrite contains_after_last in H.
  pose proof (after_last_at_marker _ _ output_marker_first_unique post) as L.
  change (35%N :: tl output_marker) with output_marker in L.
  rewrite (after_last_app pre _ _ _ L).
  destruct (after_last post output_marker); [discriminate H|reflexivity].
Qed.

Lemma text_after_last_marker_absent (out : str) :
  contains out output_marker = false -> text_after_last_marker out = out.
Proof.
  intros H. unfold text_after_last_marker.
  rewrite contains_after_last in H.
  destruct (after_last out output_marker); [discriminate H|reflexivity].
Qed.

(** C4: the output extractor keeps the text after the last occurrence of
    the marker [# Output:] (the text after an occurrence that no other one
    follows; the whole text when the marker is absent), drops every line
    whose trimmed content begins with [#], joins the lines left and trims
    the result.  Whatever precedes it, the sample output yields
    [SELECT 1;]; and a model that adds nothing to the prompt yields the
    empty draft. *)
Theorem extract_output_contract (out pre post before request : str) :
  extract_output out =
    strip (join [LF]
             (filter (fun l => negb (startswith (strip l) (py "#")))
                     (splitlines (text_after_last_marker out))))
  /\ (out = pre ++ py "# Output:" ++ post ->
      contains post (py "# Output:") = false ->
      text_after_last_marker out = post)
  /\ (contains out (py "# Output:") = false ->
      text_after_last_marker out = out)
  /\ extract_output (before ++ sample_output) = py "SELECT 1;"
  /\ extract_output (build_prompt request) = [].
Proof.
  assert (E : forall o, extract_output o =
    strip (join [LF]
             (filter (fun l => negb (startswith (strip l) (py "#")))
                     (splitlines (text_after_last_marker o))))).
  { intros o. unfold extract_output. rewrite sql_part_after_last.
    reflexivity. }
  split; [apply E|].
  split; [intros ->; apply text_after_last_marker_at|].
  split; [apply text_after_last_marker_absent|].
  split.
  - rewrite E. unfold sample_output.
    rewrite text_after_last_marker_at by reflexivity. reflexivity.
  - rewrite E.
    replace (build_prompt request)
      with ((prompt_head ++ request ++ [LF]) ++ output_marker ++ []).
    + rewrite text_after_last_marker_at by reflexivity. reflexivity.
    + unfold build_prompt, prompt_tail.
      rewrite app_nil_r, <- !app_assoc. reflexivity.
Qed.

Lemma extract_output_contract_witness :
  let out := py "x# Output:y# Output: SELECT 2;" in
  out = py "x# Output:y" ++ py "# Output:" ++ py " SELECT 2;" /\
  contains (py " SELECT 2;") (py "# Output:") = false /\
  text_after_last_marker out = py " SELECT 2;".
Proof.
  cbv zeta. split; [reflexivity|]. split; [reflexivity|].
  exact (proj1 (proj2 (extract_output_contract
           (py "x# Output:y# Output: SELECT 2;")
           (py "x# Output:y") (py " SELECT 2;") [] []))
           eq_refl eq_refl).
Defined.

Lemma build_prompt_inj (r1 r2 : str) :
  build_prompt r1 = build_prompt r2 -> r1 = r2.
Proof.
  unfold build_prompt. intros H.
  apply app_inv_head in H. apply app_inv_tail in H. exact H.
Qed.

(** C8: the prompt is the fixed template with the request put, as it is,
    right after the last [# Input: ]: the template has the three schema
    lines, the two example pairs and ends with the line [# Output:]; the
    request can be read back from the prompt, and two requests have the
    same prompt exactly when they are the same request. *)
Theorem build_prompt_contract (request r1 r2 : str) :
  build_prompt request = prompt_head ++ request ++ [LF] ++ py "# Output:"
  /\ splitlines prompt_head = map py prompt_head_lines
  /\ template_lines "#   " =
       [ py "#   users(user_id INT, first_name VARCHAR, last_name VARCHAR, email VARCHAR, signup_date DATE)";
         py "#   orders(order_id INT, user_id INT, order_total FLOAT, order_date DATE)";
         py "#   products(product_id INT, name VARCHAR, price FLOAT)" ]
  /\ template_lines "# Input: " =
       [ py "# Input: Find total number of orders placed by each user.";
         py "# Input: Create a table of employees with columns emp_id, emp_name, emp_address.";
         py "# Input: " ]
  /\ template_lines "# Output: " =
       [ py "# Output: SELECT u.first_name, u.last_name, COUNT(o.order_id) AS total_orders FROM users u JOIN orders o ON u.user_id = o.user_id GROUP BY u.user_id;";
         py "# Output: CREATE TABLE employees (emp_id INT, emp_name VARCHAR(255), emp_address VARCHAR(255));" ]
  /\ last (splitlines prompt_head) [] = py "# Input: "
  /\ firstn (length request) (skipn (length prompt_head) (build_prompt request))
     = request
  /\ (build_prompt r1 = build_prompt r2 <-> r1 = r2).
Proof.
  repeat split; try (vm_compute; reflexivity).
  - unfold build_prompt. rewrite skipn_length_app.
    rewrite firstn_app, firstn_all, Nat.sub_diag. simpl. apply app_nil_r.
  - apply build_prompt_inj.
  - intros ->. reflexivity.
Qed.

(** ** 2. The refiner *)

Lemma refine_without_key (key : option str) (OpenAI : service)
    (prompt draft : str) :
  no_key key = true ->
  _refine_with_openai key OpenAI prompt draft = ret draft.
Proof.
  unfold _refine_with_openai. destruct key as [[|c k]|]; simpl;
    [reflexivity|discriminate|reflexivity].
Qed.

Lemma refine_with_key (key : str) (OpenAI : service) (prompt draft : str) :
  key <> [] ->
  _refine_with_openai (Some key) OpenAI prompt draft =
  match OpenAI key with
  | Raise e => (Raise e, [])
  | Ok client =>
      match remote_round_trip client prompt draft with
      | Ok refined => (Ok refined, [])
      | Raise e => (Ok draft, [py "[OpenAI ERROR]" ++ py " " ++ message e])
      end
  end.
Proof.
  intros Hk. unfold _refine_with_openai.
  destruct key as [|c k]; [contradiction|].
  unfold bind, try_except, lift.
  destruct (OpenAI (c :: k)) as [client|e]; [|reflexivity].
  destruct (remote_round_trip client prompt draft); reflexivity.
Qed.

(** What the import and the construction of the client raise leaves the
    refiner. *)
Lemma refine_raises (key : option str) (OpenAI : service)
    (prompt draft : str) (e : exn) :
  client_failure key OpenAI = Some e ->
  _refine_with_openai key OpenAI prompt draft = (Raise e, []).
Proof.
  unfold client_failure. destruct key as [[|c k]|]; try discriminate.
  rewrite refine_with_key by discriminate.
  destruct (OpenAI (c :: k)); [discriminate|].
  intros H. injection H as ->. reflexivity.
Qed.

(** In every other case the refiner returns a text. *)
Lemma refine_returns (key : option str) (OpenAI : service)
    (prompt draft : str) :
  client_failure key OpenAI = None ->
  exists refined,
    value (_refine_with_openai key OpenAI prompt draft) = Ok refined.
Proof.
  unfold client_failure. destruct (no_key key) eqn:E.
  - intros _. rewrite (refine_without_key _ OpenAI prompt draft E).
    eexists. reflexivity.
  - destruct key as [[|c k]|]; try discriminate E.
    rewrite refine_with_key by discriminate.
    destruct (OpenAI (c :: k)) as [client|e]; [|discriminate].
    intros _. destruct (remote_round_trip client prompt draft);
      eexists; reflexivity.
Qed.

(** A call that raises, and a response without a usable text, both make
    the round trip raise. *)
Lemma round_trip_service_raises (client : client) (prompt draft : str)
    (e : exn) :
  client (refine_request prompt draft) = Raise e ->
  remote_round_trip client prompt draft = Raise e.
Proof. unfold remote_round_trip. intros ->. reflexivity. Qed.

Lemma round_trip_malformed (client : client) (prompt draft : str)
    (rest : list (option str)) :
  client (refine_request prompt draft) = Ok {| choices := [] |} \/
  client (refine_request prompt draft) = Ok {| choices := None :: rest |} ->
  exists e, remote_round_trip client prompt draft = Raise e.
Proof.
  unfold remote_round_trip. intros [-> | ->]; eexists; reflexivity.
Qed.

(** ** 4. The pipeline *)

Lemma text_to_sql_value (key : option str) (OpenAI : service)
    (_generator : Generator) (request : str) :
  value (text_to_sql key OpenAI _generator request) =
  match generate _generator (strip request) with
  | Ok draft =>
      match value (_refine_with_openai key OpenAI (strip request) draft) with
      | Ok refined => Ok (_strip_fence refined)
      | Raise e => Raise e
      end
  | Raise e => Raise e
  end.
Proof.
  unfold text_to_sql, bind, lift, ret, value.
  destruct (generate _generator (strip request)) as [draft|e]; [|reflexivity].
  destruct (_refine_with_openai key OpenAI (strip request) draft) as [[r|e] out];
    reflexivity.
Qed.

Lemma text_to_sql_without_key (key : option str) (OpenAI : service)
    (_generator : Generator) (request : str) :
  no_key key = true ->
  text_to_sql key OpenAI _generator request =
  match generate _generator (strip request) with
  | Ok draft => (Ok (_strip_fence draft), [])
  | Raise e => (Raise e, [])
  end.
Proof.
  intros Hk. unfold text_to_sql, bind, lift.
  destruct (generate _generator (strip request)) as [draft|e]; [|reflexivity].
  rewrite (refine_without_key _ OpenAI _ draft Hk). reflexivity.
Qed.

(** C1 (the code departs from it): the import and the construction of
    the client stand before the [try] statement.  With a credential
    configured and a draft in hand, what they raise is not absorbed: it
    leaves the refiner and the pipeline, and nothing is printed, where
    without a credential the pipeline returns the draft with its fences
    stripped. *)
Theorem client_failure_leaves_pipeline
    (key : str) (OpenAI : service) (_generator : Generator)
    (request draft : str) (e : exn) :
  key <> [] ->
  generate _generator (strip request) = Ok draft ->
  OpenAI key = Raise e ->
  _refine_with_openai (Some key) OpenAI (strip request) draft = (Raise e, [])
  /\ text_to_sql (Some key) OpenAI _generator request = (Raise e, [])
  /\ text_to_sql None OpenAI _generator request
     = (Ok (_strip_fence draft), []).
Proof.
  intros Hk Hgen Hfail.
  assert (Href : _refine_with_openai (Some key) OpenAI (strip request) draft
                 = (Raise e, [])).
  { rewrite (refine_with_key key OpenAI _ draft Hk), Hfail. reflexivity. }
  split; [exact Href|]. split.
  - unfold text_to_sql, bind, lift. rewrite Hgen, Href. reflexivity.
  - rewrite (text_to_sql_without_key None OpenAI _ request eq_refl), Hgen.
    reflexivity.
Qed.

Lemma client_failure_leaves_pipeline_witness :
  let key := py "sk-test" in
  let request := py "  list users " in
  let draft := py "SELECT * FROM users;" in
  let e := Exn ImportError (py "cannot import name 'OpenAI' from 'openai'") in
  key <> [] /\
  generate (echo_generator draft) (strip request) = Ok draft /\
  outdated_package key = Raise e /\
  text_to_sql (Some key) outdated_package (echo_generator draft) request
    = (Raise e, []) /\
  text_to_sql None outdated_package (echo_generator draft) request
    = (Ok draft, []).
Proof.
  cbv zeta.
  assert (Hk : py "sk-test" <> []) by (vm_compute; discriminate).
  split; [exact Hk|]. split; [reflexivity|]. split; [reflexivity|].
  exact (proj2 (client_failure_leaves_pipeline
           (py "sk-test") outdated_package
           (echo_generator (py "SELECT * FROM users;"))
           (py "  list users ") (py "SELECT * FROM users;")
           (Exn ImportError (py "cannot import name 'OpenAI' from 'openai'"))
           Hk eq_refl eq_refl)).
Defined.

(** X20: once the client is built, a remote round trip that raises (the
    call raises, or its response has no usable text) is absorbed: the
    refiner reports the failure and returns the draft unchanged; the
    pipeline then returns a final text, and it is the one it returns when
    no credential is configured. *)
Theorem refinement_failure_absorbed
    (key : str) (OpenAI : service) (client : client)
    (_generator : Generator) (request draft : str) (e : exn) :
  key <> [] ->
  generate _generator (strip request) = Ok draft ->
  OpenAI key = Ok client ->
  remote_round_trip client (strip request) draft = Raise e ->
  _refine_with_openai (Some key) OpenAI (strip request) draft =
    (Ok draft, [py "[OpenAI ERROR]" ++ py " " ++ message e])
  /\ value (text_to_sql (Some key) OpenAI _generator request) =
       Ok (_strip_fence draft)
  /\ value (text_to_sql (Some key) OpenAI _generator request) =
       value (text_to_sql None OpenAI _generator request).
Proof.
  intros Hk Hgen Hcl Hfail.
  assert (Href : _refine_with_openai (Some key) OpenAI (strip request) draft =
                 (Ok draft, [py "[OpenAI ERROR]" ++ py " " ++ message e])).
  { rewrite (refine_with_key key OpenAI _ draft Hk), Hcl, Hfail.
    reflexivity. }
  split; [exact Href|].
  rewrite !text_to_sql_value, Hgen, Href.
  rewrite (refine_without_key None OpenAI _ draft eq_refl).
  split; reflexivity.
Qed.

Lemma refinement_failure_absorbed_witness :
  let key := py "sk-test" in
  let request := py "  list users " in
  let draft := py "SELECT * FROM users;" in
  let e := Exn APIConnectionError (py "Connection error.") in
  let client : client := fun _ => Raise e in
  key <> [] /\
  generate (echo_generator draft) (strip request) = Ok draft /\
  unreachable_service key = Ok client /\
  remote_round_trip client (strip request) draft = Raise e /\
  value (text_to_sql (Some key) unreachable_service (echo_generator draft) request)
    = Ok draft.
Proof.
  cbv zeta.
  assert (Hk : py "sk-test" <> []) by (vm_compute; discriminate).
  split; [exact Hk|]. split; [reflexivity|]. split; [reflexivity|].
  split; [reflexivity|].
  exact (proj1 (proj2 (refinement_failure_absorbed
           (py "sk-test") unreachable_service
           (fun _ => Raise (Exn APIConnectionError (py "Connection error.")))
           (echo_generator (py "SELECT * FROM users;"))
           (py "  list users ") (py "SELECT * FROM users;")
           (Exn APIConnectionError (py "Connection error."))
           Hk eq_refl eq_refl eq_refl))).
Defined.

(** C2, as the claim states it, fails for a request with a blank at its
    start: the pipeline builds the prompt from the trimmed request, and a
    model may continue the two prompts differently. *)
Lemma offline_chain_differs_on_untrimmed_request :
  value (text_to_sql None unreachable_service
           (SQLGenerator blank_sensitive_pipe) (py " x"))
    = Ok (py "SELECT 2;")
  /\ offline_chain blank_sensitive_pipe (py " x") = Ok (py "SELECT 1;").
Proof. split; vm_compute; reflexivity. Qed.

(** C2 (amended): when no credential is configured the refiner is the
    identity on the draft and prints nothing, and the pipeline returns what
    the fence stripper makes of the draft extracted from the model's output
    for the prompt of the trimmed request; for a request that is already
    trimmed this is the composition of the offline stages on the request
    itself. *)
Theorem offline_mode_is_offline_chain
    (key : option str) (OpenAI : service) (pipe : str -> result str)
    (request draft : str) :
  no_key key = true ->
  _refine_with_openai key OpenAI (strip request) draft = (Ok draft, [])
  /\ text_to_sql key OpenAI (SQLGenerator pipe) request =
       (offline_chain pipe (strip request), [])
  /\ (strip request = request ->
      value (text_to_sql key OpenAI (SQLGenerator pipe) request) =
        offline_chain pipe request).
Proof.
  intros Hk.
  assert (H : text_to_sql key OpenAI (SQLGenerator pipe) request =
              (offline_chain pipe (strip request), [])).
  { rewrite (text_to_sql_without_key key OpenAI _ request Hk).
    unfold offline_chain. cbn [generate SQLGenerator].
    destruct (pipe (build_prompt (strip request))); reflexivity. }
  split; [apply (refine_without_key key OpenAI _ draft Hk)|].
  split; [exact H|].
  intros Ht. rewrite H, Ht. reflexivity.
Qed.

Lemma offline_mode_is_offline_chain_witness :
  no_key None = true /\
  text_to_sql None unreachable_service (SQLGenerator blank_sensitive_pipe)
    (py " x")
  = (offline_chain blank_sensitive_pipe (strip (py " x")), []).
Proof.
  split; [reflexivity|].
  exact (proj1 (proj2 (offline_mode_is_offline_chain
           None unreachable_service blank_sensitive_pipe (py " x") []
           eq_refl))).
Defined.

(** C5: the end-to-end scenario.  With no credential configured and the
    generation stage replaced by one that echoes the fenced draft (be it
    the generator's [generate] or the model behind it), the request
    [Find total number of orders placed by each user.] yields the draft's
    statement without its fence lines. *)
Theorem scenario_final_sql (OpenAI : service) :
  text_to_sql None OpenAI (echo_generator scenario_draft) scenario_request
    = (Ok (py "SELECT COUNT(*) FROM orders;"), [])
  /\ text_to_sql None OpenAI (SQLGenerator (fun _ => Ok scenario_draft))
       scenario_request
     = (Ok (py "SELECT COUNT(*) FROM orders;"), [])
  /\ _strip_fence scenario_draft = py "SELECT COUNT(*) FROM orders;".
Proof. repeat split; vm_compute; reflexivity. Qed.

(** C9: the pipeline trims the request before anything else, so a request
    and its trimmed form give the same outcome, whatever the credential,
    the service and the generator. *)
Theorem text_to_sql_strips_request
    (key : option str) (OpenAI : service) (_generator : Generator)
    (request : str) :
  text_to_sql key OpenAI _generator request =
  text_to_sql key OpenAI _generator (strip request).
Proof. unfold text_to_sql. rewrite strip_idem. reflexivity. Qed.

(** C10: what the fence stripper returns has no whitespace at either
    end and is its own trimmed form; so are the draft of the output
    extractor and every final text of the pipeline. *)
Theorem final_sql_trimmed
    (text out : str) (key : option str) (OpenAI : service)
    (_generator : Generator) (request final : str) :
  (strip (_strip_fence text) = _strip_fence text
   /\ no_outer_whitespace (_strip_fence text))
  /\ strip (extract_output out) = extract_output out
  /\ (value (text_to_sql key OpenAI _generator request) = Ok final ->
      strip final = final /\ no_outer_whitespace final).
Proof.
  assert (Hfs : forall t, strip (_strip_fence t) = _strip_fence t
                          /\ no_outer_whitespace (_strip_fence t)).
  { intros t. split; [apply strip_fence_trimmed|].
    rewrite <- strip_fence_trimmed. apply strip_no_outer_whitespace. }
  split; [apply Hfs|].
  split; [apply strip_idem|].
  rewrite text_to_sql_value.
  destruct (generate _generator (strip request)) as [draft|e]; [|discriminate].
  destruct (value (_refine_with_openai key OpenAI (strip request) draft))
    as [refined|e]; [|discriminate].
  intros H. injection H as <-. apply Hfs.
Qed.

Lemma final_sql_trimmed_witness :
  value (text_to_sql None unreachable_service (echo_generator scenario_draft)
           scenario_request) = Ok (py "SELECT COUNT(*) FROM orders;")
  /\ strip (py "SELECT COUNT(*) FROM orders;") = py "SELECT COUNT(*) FROM orders;".
Proof.
  split; [reflexivity|].
  exact (proj1 (proj2 (proj2 (final_sql_trimmed [] [] None unreachable_service
           (echo_generator scenario_draft) scenario_request
           (py "SELECT COUNT(*) FROM orders;"))) eq_refl)).
Defined.

(** * Further properties of the pipeline *)

(** ** The refiner and [text_to_sql] *)

Lemma strip_fence_of_strip (text : str) :
  _strip_fence (strip text) = _strip_fence text.
Proof. unfold _strip_fence. rewrite strip_idem. reflexivity. Qed.

(** X1: with a credential configured and the client built, when the
    service answers with a text in its first choice, the refiner returns
    that text trimmed and prints nothing; the pipeline returns it with its
    fences stripped, and neither the draft nor the further choices
    count. *)
Theorem refinement_success_replaces_draft
    (key : str) (OpenAI : service) (client : client)
    (_generator : Generator)
    (request draft answer : str) (others : list (option str)) :
  key <> [] ->
  generate _generator (strip request) = Ok draft ->
  OpenAI key = Ok client ->
  client (refine_request (strip request) draft)
    = Ok {| choices := Some answer :: others |} ->
  _refine_with_openai (Some key) OpenAI (strip request) draft
    = (Ok (strip answer), [])
  /\ text_to_sql (Some key) OpenAI _generator request
     = (Ok (_strip_fence answer), []).
Proof.
  intros Hk Hgen Hcl Hans.
  assert (Href : _refine_with_openai (Some key) OpenAI (strip request) draft
                 = (Ok (strip answer), [])).
  { rewrite (refine_with_key key OpenAI _ draft Hk), Hcl.
    unfold remote_round_trip. rewrite Hans. reflexivity. }
  split; [exact Href|].
  unfold text_to_sql, bind, lift. rewrite Hgen, Href.
  unfold ret. rewrite strip_fence_of_strip. reflexivity.
Qed.

Lemma refinement_success_replaces_draft_witness :
  let key := py "sk-test" in
  let answer := py " ```sql" ++ [LF] ++ py "SELECT 2;" ++ [LF] ++ py "``` " in
  let gen := echo_generator (py "SELECT 1;") in
  key <> [] /\
  text_to_sql (Some key) (answering_service answer) gen (py "count users")
    = (Ok (py "SELECT 2;"), []).
Proof.
  cbv zeta.
  assert (Hk : py "sk-test" <> []) by (vm_compute; discriminate).
  split; [exact Hk|].
  exact (proj2 (refinement_success_replaces_draft
           (py "sk-test")
           (answering_service
              (py " ```sql" ++ [LF] ++ py "SELECT 2;" ++ [LF] ++ py "``` "))
           _ (echo_generator (py "SELECT 1;"))
           (py "count users") (py "SELECT 1;") _ [] Hk eq_refl eq_refl
           eq_refl)).
Defined.

(** X2: the pipeline raises in two cases only, and then it raises the
    exception it met: the generator raises, or the generator returns a
    draft, a credential is configured and the import or the construction
    of the client raises.  In every other case it returns a final text. *)
Theorem text_to_sql_raises_iff
    (key : option str) (OpenAI : service) (_generator : Generator)
    (request : str) :
  (forall e,
     value (text_to_sql key OpenAI _generator request) = Raise e <->
     generate _generator (strip request) = Raise e
     \/ ((exists draft, generate _generator (strip request) = Ok draft)
         /\ exists k, key = Some k /\ k <> [] /\ OpenAI k = Raise e))
  /\ ((exists draft, generate _generator (strip request) = Ok draft) ->
      (forall k, key = Some k -> k <> [] ->
         exists client, OpenAI k = Ok client) ->
      exists final,
        value (text_to_sql key OpenAI _generator request) = Ok final).
Proof.
  rewrite text_to_sql_value.
  destruct (generate _generator (strip request)) as [draft|e0].
  - destruct (client_failure key OpenAI) as [e1|] eqn:Hcf.
    + rewrite (refine_raises key OpenAI _ draft e1 Hcf). cbn [value fst].
      unfold client_failure in Hcf.
      destruct key as [[|c k]|]; try discriminate Hcf.
      destruct (OpenAI (c :: k)) as [cl|e2] eqn:Ho; [discriminate Hcf|].
      injection Hcf as ->. split.
      * intros e. split.
        -- intros H. injection H as <-. right. split; [eauto|].
           exists (c :: k). repeat split; [discriminate|exact Ho].
        -- intros [H|(_ & k' & Hk & _ & Hr)]; [discriminate H|].
           injection Hk as <-. rewrite Ho in Hr. injection Hr as ->.
           reflexivity.
      * intros _ Hcl.
        destruct (Hcl (c :: k) eq_refl ltac:(discriminate)) as (cl & Hc).
        rewrite Ho in Hc. discriminate Hc.
    + destruct (refine_returns key OpenAI (strip request) draft Hcf)
        as (r & Hr).
      rewrite Hr. split.
      * intros e. split; [discriminate|].
        intros [H|(_ & k & -> & Hk & Ho)]; [discriminate H|].
        unfold client_failure in Hcf. destruct k as [|c k]; [contradiction|].
        rewrite Ho in Hcf. discriminate Hcf.
      * intros _ _. eexists. reflexivity.
  - split.
    + intros e. split; [intros H; left; exact H|].
      intros [H|((d & Hd) & _)]; [exact H|discriminate Hd].
    + intros (d & Hd). discriminate Hd.
Qed.

(** X3: the pipeline prints at most one line.  It prints one only when a
    credential is configured, the client was built, the generator returned
    a draft and the round trip for that draft raised; the line is
    [[OpenAI ERROR]], a blank and the text of the exception. *)
Theorem text_to_sql_prints_only_refinement_errors
    (key : option str) (OpenAI : service) (_generator : Generator)
    (request : str) :
  snd (text_to_sql key OpenAI _generator request) = []
  \/ exists k client draft e,
       key = Some k /\ k <> [] /\
       OpenAI k = Ok client /\
       generate _generator (strip request) = Ok draft /\
       remote_round_trip client (strip request) draft = Raise e /\
       snd (text_to_sql key OpenAI _generator request)
         = [py "[OpenAI ERROR] " ++ message e].
Proof.
  unfold text_to_sql, bind, lift.
  destruct (generate _generator (strip request)) as [draft|e0] eqn:Hgen;
    [|left; reflexivity].
  destruct (no_key key) eqn:Hk.
  - rewrite (refine_without_key key OpenAI _ draft Hk). left. reflexivity.
  - destruct key as [[|c k]|]; try discriminate Hk.
    rewrite refine_with_key by discriminate.
    destruct (OpenAI (c :: k)) as [client|e1] eqn:Hcl; [|left; reflexivity].
    destruct (remote_round_trip client (strip request) draft)
      as [r|e] eqn:Hrt.
    + left. reflexivity.
    + right. exists (c :: k), client, draft, e.
      repeat split; try assumption; try reflexivity. discriminate.
Qed.

(** X4: without a credential (the variable unset or empty) the outcome of
    the pipeline, printed lines included, is the same for every service:
    no client is built and the service is not consulted. *)
Theorem offline_mode_ignores_service
    (key : option str) (OpenAI1 OpenAI2 : service) (_generator : Generator)
    (request : str) :
  no_key key = true ->
  text_to_sql key OpenAI1 _generator request
  = text_to_sql key OpenAI2 _generator request.
Proof.
  intros Hk. rewrite !(text_to_sql_without_key key _ _ request Hk).
  reflexivity.
Qed.

Lemma offline_mode_ignores_service_witness :
  no_key (Some []) = true /\
  text_to_sql (Some []) unreachable_service (echo_generator scenario_draft)
    scenario_request
  = text_to_sql (Some [])
      (answering_service (py "DROP TABLE users;"))
      (echo_generator scenario_draft) scenario_request.
Proof.
  split; [reflexivity|].
  exact (offline_mode_ignores_service (Some []) unreachable_service
           (answering_service (py "DROP TABLE users;"))
           (echo_generator scenario_draft) scenario_request eq_refl).
Defined.

(** ** The output extractor *)

(** Whatever precedes an occurrence of the marker has no part in the text
    kept. *)
Lemma text_after_last_marker_prefix (pre cont : str) :
  text_after_last_marker (pre ++ output_marker ++ cont)
  = text_after_last_marker (output_marker ++ cont).
Proof.
  unfold text_after_last_marker.
  pose proof (after_last_at_marker _ _ output_marker_first_unique cont) as L.
  change (35%N :: tl output_marker) with output_marker in L.
  rewrite (after_last_app pre _ _ _ L), L. reflexivity.
Qed.

(** X5: the draft extracted from a prompt followed by the model's
    continuation does not depend on the request: it is the draft extracted
    from the marker followed by the continuation.  Nothing of the prompt,
    the request included, reaches the draft. *)
Theorem draft_independent_of_request (request request' cont : str) :
  extract_output (build_prompt request ++ cont)
    = extract_output (py "# Output:" ++ cont)
  /\ extract_output (build_prompt request ++ cont)
     = extract_output (build_prompt request' ++ cont).
Proof.
  assert (H : forall r, extract_output (build_prompt r ++ cont)
                        = extract_output (py "# Output:" ++ cont)).
  { intros r. unfold extract_output. rewrite !sql_part_after_last.
    replace (build_prompt r ++ cont)
      with ((prompt_head ++ r ++ [LF]) ++ output_marker ++ cont).
    - rewrite text_after_last_marker_prefix. reflexivity.
    - unfold build_prompt, prompt_tail. rewrite <- !app_assoc. reflexivity. }
  split; [apply H|]. rewrite !H. reflexivity.
Qed.

(** ** Lines of a trimmed text *)

Lemma lstrip_app_space (u x : str) :
  allspace u = true -> lstrip (u ++ x) = lstrip x.
Proof.
  induction u as [|c u IH]; simpl; [reflexivity|].
  intros H. apply andb_true_iff in H as [Hc Hu]. rewrite Hc. exact (IH Hu).
Qed.

Lemma lstrip_decompose (s : str) :
  exists u, s = u ++ lstrip s /\ allspace u = true.
Proof.
  induction s as [|c s (u & E & Hu)]; [exists []; split; reflexivity|].
  simpl. destruct (isspace c) eqn:Hc.
  - exists (c :: u). simpl. rewrite Hc, Hu. split; [f_equal; exact E|reflexivity].
  - exists []. split; reflexivity.
Qed.

Lemma allspace_rev (s : str) : allspace (rev s) = allspace s.
Proof.
  unfold allspace. induction s as [|c s IH]; [reflexivity|].
  simpl. rewrite forallb_app, IH. simpl.
  rewrite andb_true_r. apply andb_comm.
Qed.

Lemma rstrip_app_space (x v : str) :
  allspace v = true -> rstrip (x ++ v) = rstrip x.
Proof.
  intros H. unfold rstrip. rewrite rev_app_distr.
  rewrite lstrip_app_space by (rewrite allspace_rev; exact H). reflexivity.
Qed.

Lemma rstrip_decompose (s : str) :
  exists v, s = rstrip s ++ v /\ allspace v = true.
Proof.
  destruct (lstrip_decompose (rev s)) as (u & E & Hu).
  exists (rev u). split.
  - unfold rstrip. rewrite <- rev_app_distr, <- E, rev_involutive. reflexivity.
  - rewrite allspace_rev. exact Hu.
Qed.

(** A trimmed text lies inside the text it comes from, between two runs
    of whitespace. *)
Lemma strip_decompose (s : str) :
  exists u v, s = u ++ strip s ++ v /\ allspace u = true /\ allspace v = true.
Proof.
  destruct (lstrip_decompose s) as (u & Eu & Hu).
  destruct (rstrip_decompose (lstrip s)) as (v & Ev & Hv).
  exists u, v. unfold strip. rewrite <- Ev. auto.
Qed.

Lemma strip_comm (s : str) : rstrip (lstrip s) = lstrip (rstrip s).
Proof.
  induction s as [|c s IH]; [reflexivity|].
  rewrite rstrip_cons. simpl lstrip at 1. destruct (isspace c) eqn:Hc.
  - rewrite IH. destruct (rstrip s) as [|d r]; [reflexivity|].
    simpl. rewrite Hc. reflexivity.
  - rewrite rstrip_cons. destruct (rstrip s) as [|d r]; simpl; rewrite Hc;
      reflexivity.
Qed.

(** Whitespace around a text does not change what [strip] makes of it. *)
Lemma strip_pad (u x v : str) :
  allspace u = true -> allspace v = true -> strip (u ++ x ++ v) = strip x.
Proof.
  intros Hu Hv. unfold strip.
  rewrite (lstrip_app_space u _ Hu), strip_comm, (rstrip_app_space x v Hv).
  symmetry. apply strip_comm.
Qed.

Lemma rstrip_nil_allspace (s : str) : rstrip s = [] -> allspace s = true.
Proof.
  intros H. destruct (rstrip_decompose s) as (v & E & Hv).
  rewrite H in E. simpl in E. subst v. exact Hv.
Qed.

Lemma splitlines_nil (s : str) : splitlines s = [] -> s = [].
Proof.
  destruct s as [|c s]; [reflexivity|]. simpl.
  destruct (islinebreak c); [discriminate|].
  destruct (splitlines s); discriminate.
Qed.

(** The first line of a text is a prefix of it, and every line lies
    inside it. *)
Lemma splitlines_inside (s : str) :
  (forall l ls, splitlines s = l :: ls -> exists b, s = l ++ b) /\
  (forall l, In l (splitlines s) -> occurs l s).
Proof.
  induction s as [|c s Hc IH|c s Hc IH] using splitlines_ind.
  - split; [discriminate|intros l []].
  - assert (Hs : exists z, s = z ++ after_break c s).
    { destruct s as [|d s]; [exists []; reflexivity|]. simpl.
      destruct ((c =? CR) && (d =? LF))%N; [exists [d]|exists []]; reflexivity. }
    destruct Hs as (z & Hz). rewrite (splitlines_break _ _ Hc). split.
    + intros l ls E. injection E as <- _. exists (c :: s). reflexivity.
    + intros l [<-|Hl]; [exists [], (c :: s); reflexivity|].
      destruct (proj2 IH l Hl) as (a & b & E).
      exists (c :: z ++ a), b. rewrite Hz at 1. rewrite E.
      simpl. rewrite <- app_assoc. reflexivity.
  - rewrite (splitlines_char _ _ Hc).
    destruct (splitlines s) as [|l0 ls0] eqn:Es.
    + apply splitlines_nil in Es. subst s. split.
      * intros l ls E. injection E as <- _. exists []. reflexivity.
      * intros l [<-|[]]. exists [], []. reflexivity.
    + destruct (proj1 IH l0 ls0 eq_refl) as (b0 & E0). split.
      * intros l ls E. injection E as <- _. exists b0. simpl. f_equal. exact E0.
      * intros l [<-|Hl].
        -- exists [], b0. simpl. f_equal. exact E0.
        -- destruct (proj2 IH l (or_intror Hl)) as (a & b & E).
           exists (c :: a), b. simpl. f_equal. exact E.
Qed.

Lemma splitlines_breakfree (s l : str) :
  In l (splitlines s) -> breakfree l = true.
Proof.
  revert l. induction s as [|c s Hc IH|c s Hc IH] using splitlines_ind;
    intros l Hl.
  - destruct Hl.
  - rewrite (splitlines_break _ _ Hc) in Hl.
    destruct Hl as [<-|Hl]; [reflexivity|exact (IH l Hl)].
  - rewrite (splitlines_char _ _ Hc) in Hl.
    destruct (splitlines s) as [|l0 ls0].
    + destruct Hl as [<-|[]]. simpl. rewrite Hc. reflexivity.
    + destruct Hl as [<-|Hl].
      * simpl. rewrite Hc. exact (IH l0 (or_introl eq_refl)).
      * exact (IH l (or_intror Hl)).
Qed.

Lemma lstrip_after_break (c : char) (s : str) :
  lstrip (after_break c s) = lstrip s.
Proof.
  destruct s as [|d s]; [reflexivity|]. simpl.
  destruct (N.eqb_spec d LF) as [->|_].
  - destruct (c =? CR)%N; reflexivity.
  - rewrite andb_false_r. reflexivity.
Qed.

(** Every line of a text trimmed on the left is a line of the text, less
    some whitespace at its start. *)
Lemma splitlines_lstrip_In (s l' : str) :
  In l' (splitlines (lstrip s)) ->
  exists l u, In l (splitlines s) /\ l = u ++ l' /\ allspace u = true.
Proof.
  revert l'. induction s as [|c s Hc IH|c s Hc IH] using splitlines_ind;
    intros l' Hl.
  - destruct Hl.
  - simpl lstrip in Hl. rewrite (islinebreak_isspace _ Hc) in Hl.
    rewrite <- (lstrip_after_break c s) in Hl.
    destruct (IH l' Hl) as (l & u & Hin & E & Hu).
    exists l, u. rewrite (splitlines_break _ _ Hc). auto using in_cons.
  - simpl lstrip in Hl. destruct (isspace c) eqn:Hsp.
    + destruct (IH l' Hl) as (l & u & Hin & E & Hu).
      rewrite (splitlines_char _ _ Hc).
      destruct (splitlines s) as [|l0 ls0]; [destruct Hin|].
      destruct Hin as [<-|Hin].
      * exists (c :: l0), (c :: u). split; [left; reflexivity|].
        split; [simpl; f_equal; exact E|]. simpl. rewrite Hsp. exact Hu.
      * exists l, u. auto using in_cons.
    + exists l', []. auto.
Qed.

Lemma after_break_rstrip (c d : char) (s r : str) :
  rstrip s = d :: r ->
  after_break c (rstrip s) = rstrip (after_break c s)
  /\ rstrip (after_break c s) <> [].
Proof.
  intros H. destruct s as [|a s]; [discriminate H|].
  rewrite rstrip_cons in H. simpl after_break at 2.
  destruct (rstrip s) as [|b t] eqn:Er.
  - destruct (isspace a) eqn:Ha; [discriminate H|]. injection H as <- <-.
    rewrite rstrip_cons, Er, Ha. simpl.
    destruct (N.eqb_spec a LF) as [->|_]; [discriminate Ha|].
    rewrite andb_false_r. rewrite rstrip_cons, Er, Ha.
    split; [reflexivity|discriminate].
  - injection H as <- <-. rewrite rstrip_cons, Er. simpl.
    destruct ((c =? CR) && (a =? LF))%N.
    + rewrite Er. split; [reflexivity|discriminate].
    + rewrite rstrip_cons, Er. split; [reflexivity|discriminate].
Qed.

(** The lines of a text trimmed on the right are the first lines of the
    text, the last of them less some whitespace at its end. *)
Lemma splitlines_rstrip (s : str) :
  rstrip s <> [] ->
  exists a k v rest,
    splitlines (rstrip s) = a ++ [k] /\
    splitlines s = a ++ (k ++ v) :: rest /\
    allspace v = true.
Proof.
  induction s as [|c s Hc IH|c s Hc IH] using splitlines_ind; intros Hne.
  - contradiction.
  - rewrite rstrip_cons in *. destruct (rstrip s) as [|d r] eqn:Er.
    + rewrite (islinebreak_isspace _ Hc) in Hne. contradiction.
    + rewrite <- Er in *.
      destruct (after_break_rstrip c d s r Er) as (Eab & Hab).
      rewrite !(splitlines_break _ _ Hc), Eab.
      destruct (IH Hab) as (a & k & v & rest & E1 & E2 & Hv).
      exists ([] :: a), k, v, rest. rewrite E1, E2. auto.
  - rewrite rstrip_cons in *. destruct (rstrip s) as [|d r] eqn:Er.
    + destruct (isspace c) eqn:Hsp; [contradiction|].
      pose proof (rstrip_nil_allspace s Er) as Hs.
      rewrite (splitlines_char c s Hc), (splitlines_char c [] Hc).
      change (splitlines []) with (@nil str). cbv iota.
      destruct (splitlines s) as [|l0 ls0] eqn:Es.
      * exists [], [c], [], []. auto.
      * exists [], [c], l0, ls0. split; [reflexivity|].
        split; [reflexivity|].
        destruct (proj1 (splitlines_inside s) l0 ls0 Es) as (b & Eb).
        rewrite Eb in Hs. unfold allspace in *. rewrite forallb_app in Hs.
        apply andb_true_iff in Hs as [H0 _]. exact H0.
    + rewrite <- Er in *.
      assert (Hr : rstrip s <> []) by (rewrite Er; discriminate).
      destruct (IH Hr) as (a & k & v & rest & E1 & E2 & Hv).
      rewrite !(splitlines_char _ _ Hc), E1, E2.
      destruct a as [|a0 a1]; simpl.
      * exists [], (c :: k), v, rest. auto.
      * exists ((c :: a0) :: a1), k, v, rest. auto.
Qed.

Lemma splitlines_rstrip_In (s l' : str) :
  In l' (splitlines (rstrip s)) ->
  exists l v, In l (splitlines s) /\ l = l' ++ v /\ allspace v = true.
Proof.
  intros Hl. destruct (rstrip s) as [|d r] eqn:Er; [destruct Hl|].
  rewrite <- Er in Hl.
  assert (Hne : rstrip s <> []) by (rewrite Er; discriminate).
  destruct (splitlines_rstrip s Hne) as (a & k & v & rest & E1 & E2 & Hv).
  rewrite E1 in Hl. rewrite E2. apply in_app_or in Hl as [Ha|[<-|[]]].
  - exists l', []. rewrite app_nil_r. auto using in_or_app.
  - exists (k ++ v), v. split; [apply in_or_app; right; left; reflexivity|].
    auto.
Qed.

(** Every line of a trimmed text is a line of the text, less some
    whitespace at its ends. *)
Lemma splitlines_strip_In (s l' : str) :
  In l' (splitlines (strip s)) ->
  exists l u v, In l (splitlines s) /\ l = u ++ l' ++ v /\
                allspace u = true /\ allspace v = true.
Proof.
  unfold strip. intros Hl.
  destruct (splitlines_rstrip_In _ _ Hl) as (l1 & v & H1 & E1 & Hv).
  destruct (splitlines_lstrip_In _ _ H1) as (l & u & H & E & Hu).
  exists l, u, v. subst. auto.
Qed.

(** ** Joining lines and splitting them again *)

Lemma splitlines_line_feed (l rest : str) :
  breakfree l = true ->
  splitlines (l ++ LF :: rest) = l :: splitlines rest.
Proof.
  induction l as [|c l IH]; simpl app; intros H.
  - rewrite (splitlines_break LF rest eq_refl).
    destruct rest as [|d rest]; reflexivity.
  - simpl in H. apply andb_true_iff in H as [Hc Hl].
    apply negb_true_iff in Hc.
    rewrite (splitlines_char _ _ Hc), (IH Hl). reflexivity.
Qed.

Lemma splitlines_single (l : str) :
  breakfree l = true -> l <> [] -> splitlines l = [l].
Proof.
  induction l as [|c l IH]; intros H Hne; [contradiction|].
  simpl in H. apply andb_true_iff in H as [Hc Hl]. apply negb_true_iff in Hc.
  rewrite (splitlines_char _ _ Hc).
  destruct l as [|d l]; [reflexivity|].
  rewrite (IH Hl) by discriminate. reflexivity.
Qed.

(** Splitting joined lines gives the lines back, but for an empty last
    line, which a text cannot show. *)
Lemma splitlines_join (ls : list str) :
  Forall (fun l => breakfree l = true) ls ->
  splitlines (join [LF] ls) =
  match last ls [] with
  | [] => removelast ls
  | _ :: _ => ls
  end.
Proof.
  induction ls as [|l ls IH]; intros H; [reflexivity|].
  inversion H as [|? ? Hl Hls]; subst.
  destruct ls as [|l1 ls].
  - simpl. destruct l as [|c l]; [reflexivity|].
    apply splitlines_single; [exact Hl|discriminate].
  - change (join [LF] (l :: l1 :: ls)) with (l ++ LF :: join [LF] (l1 :: ls)).
    rewrite (splitlines_line_feed _ _ Hl), (IH Hls).
    change (last (l :: l1 :: ls) []) with (last (l1 :: ls) []).
    change (removelast (l :: l1 :: ls)) with (l :: removelast (l1 :: ls)).
    destruct (last (l1 :: ls) []); reflexivity.
Qed.

Lemma splitlines_join_In (ls : list str) (l : str) :
  Forall (fun l => breakfree l = true) ls ->
  In l (splitlines (join [LF] ls)) -> In l ls.
Proof.
  intros H. rewrite (splitlines_join ls H).
  destruct (last ls []); [|exact (fun x => x)].
  intros Hl. destruct ls as [|l0 ls]; [destruct Hl|].
  rewrite (app_removelast_last [] (l := l0 :: ls)) by discriminate.
  apply in_or_app. left. exact Hl.
Qed.

Lemma lf_only_join (ls : list str) :
  Forall (fun l => breakfree l = true) ls -> lf_only (join [LF] ls) = true.
Proof.
  assert (Hbf : forall l, breakfree l = true -> lf_only l = true).
  { intros l. unfold breakfree, lf_only. rewrite !forallb_forall.
    intros H x Hx. rewrite (H x Hx). reflexivity. }
  induction ls as [|l ls IH]; intros H; [reflexivity|].
  inversion H as [|? ? Hl Hls]; subst.
  rewrite join_cons. unfold lf_only in *. rewrite forallb_app.
  rewrite (Hbf l Hl). destruct ls as [|l1 ls]; [reflexivity|].
  rewrite forallb_app. specialize (IH Hls). unfold lf_only in IH.
  rewrite IH. reflexivity.
Qed.

(** Joining the lines of a text gives the text back when its line
    boundaries are line feeds and it does not end with one. *)
Lemma join_splitlines (t : str) :
  lf_only t = true ->
  (forall r, t <> r ++ [LF]) ->
  join [LF] (splitlines t) = t.
Proof.
  induction t as [|c t IH]; intros Hlf Hend; [reflexivity|].
  simpl in Hlf. apply andb_true_iff in Hlf as [Hc Hlf].
  assert (Hend' : forall r, t <> r ++ [LF]).
  { intros r E. apply (Hend (c :: r)). simpl. f_equal. exact E. }
  destruct (islinebreak c) eqn:Hb.
  - simpl in Hc. apply N.eqb_eq in Hc. subst c.
    rewrite (splitlines_break _ _ Hb).
    assert (Hab : after_break LF t = t) by (destruct t; reflexivity).
    rewrite Hab, join_cons.
    destruct (splitlines t) as [|l ls] eqn:Es.
    + apply splitlines_nil in Es. subst t. exfalso. apply (Hend []).
      reflexivity.
    + simpl. f_equal. apply (IH Hlf Hend').
  - rewrite (splitlines_char _ _ Hb).
    destruct (splitlines t) as [|l ls] eqn:Es.
    + apply splitlines_nil in Es. subst t. reflexivity.
    + specialize (IH Hlf Hend'). rewrite join_cons in IH.
      rewrite join_cons. rewrite <- IH. reflexivity.
Qed.

(** ** Occurrences *)

Lemma contains_occurs (s m : str) : contains s m = true <-> occurs m s.
Proof.
  rewrite contains_after_last. split.
  - destruct (after_last s m) as [r|] eqn:E; [|discriminate]. intros _.
    destruct (after_last_spec _ _ _ E) as (pre & -> & _). exists pre, r.
    reflexivity.
  - intros (a & b & ->). destruct (after_last (a ++ m ++ b) m) eqn:E;
      [reflexivity|]. exfalso. exact (after_last_None_inv _ _ E a b eq_refl).
Qed.

Lemma occurs_trans (m l s : str) : occurs m l -> occurs l s -> occurs m s.
Proof.
  intros (a & b & ->) (a' & b' & ->). exists (a' ++ a), (b ++ b').
  rewrite <- !app_assoc. reflexivity.
Qed.

(** A text with no line feed in it that occurs in two texts joined by a
    line feed occurs in one of them. *)
Lemma occurs_across_line_feed (m x y : str) :
  m <> [] -> ~ In LF m ->
  occurs m (x ++ LF :: y) -> occurs m x \/ occurs m y.
Proof.
  intros Hne Hlf (a & b & E).
  apply app_eq_app in E as (l & [[-> E]|[-> E]]).
  - symmetry in E. apply app_eq_app in E as (l' & [[-> E]|[-> E]]).
    + left. exists a, l'. reflexivity.
    + destruct l' as [|d l'].
      * left. exists a, []. rewrite !app_nil_r. reflexivity.
      * injection E as <- _. exfalso. apply Hlf.
        apply in_or_app. right. left. reflexivity.
  - destruct l as [|d l].
    + destruct m as [|d m]; [contradiction|]. injection E as <- _.
      exfalso. apply Hlf. left. reflexivity.
    + injection E as _ ->. right. exists l, b. reflexivity.
Qed.

Lemma occurs_in_join (m : str) (ls : list str) :
  m <> [] -> ~ In LF m ->
  occurs m (join [LF] ls) -> exists l, In l ls /\ occurs m l.
Proof.
  intros Hne Hlf. induction ls as [|l ls IH]; intros H.
  - destruct H as (a & b & E). destruct a; [|discriminate].
    destruct m; [contradiction|discriminate].
  - destruct ls as [|l1 ls]; [exists l; split; [left; reflexivity|exact H]|].
    change (join [LF] (l :: l1 :: ls)) with (l ++ LF :: join [LF] (l1 :: ls))
      in H.
    apply (occurs_across_line_feed _ _ _ Hne Hlf) in H as [H|H].
    + exists l. split; [left; reflexivity|exact H].
    + destruct (IH H) as (l' & Hin & Hocc). exists l'. auto using in_cons.
Qed.

(** ** What the extracted draft looks like *)

Lemma kept_lines_breakfree (sp : str) :
  Forall (fun l => breakfree l = true) (filter keep_line (splitlines sp)).
Proof.
  apply Forall_forall. intros l Hl. apply filter_In in Hl as [Hl _].
  exact (splitlines_breakfree _ _ Hl).
Qed.

Lemma draft_lines_kept (out l' : str) :
  In l' (splitlines (extract_output out)) -> keep_line l' = true.
Proof.
  unfold extract_output. intros Hl.
  destruct (splitlines_strip_In _ _ Hl) as (l & u & v & Hin & E & Hu & Hv).
  apply (splitlines_join_In _ _ (kept_lines_breakfree _)) in Hin.
  apply filter_In in Hin as [_ Hk].
  unfold keep_line in *. rewrite E, (strip_pad u l' v Hu Hv) in Hk. exact Hk.
Qed.

Lemma text_after_last_marker_clean (out : str) :
  ~ occurs output_marker (text_after_last_marker out).
Proof.
  unfold text_after_last_marker.
  destruct (after_last out output_marker) as [r|] eqn:E.
  - destruct (after_last_spec _ _ _ E) as (pre & Eout & Hmax).
    intros (a & b & Er).
    specialize (Hmax (pre ++ output_marker ++ a) b).
    rewrite Eout, Er, <- !app_assoc in Hmax. specialize (Hmax eq_refl).
    rewrite !length_app in Hmax. simpl in Hmax. lia.
  - intros (a & b & Er). exact (after_last_None_inv _ _ E a b Er).
Qed.

Lemma draft_without_marker (out : str) :
  contains (extract_output out) output_marker = false.
Proof.
  destruct (contains (extract_output out) output_marker) eqn:Hc;
    [|reflexivity].
  exfalso. apply contains_occurs in Hc. unfold extract_output in Hc.
  set (ls := filter keep_line (splitlines (sql_part out))) in *.
  destruct (strip_decompose (join [LF] ls)) as (u & v & E & _ & _).
  assert (HJ : occurs output_marker (join [LF] ls)).
  { apply (occurs_trans _ _ _ Hc). exists u, v. exact E. }
  apply occurs_in_join in HJ as (l & Hin & Hocc).
  - apply filter_In in Hin as [Hin _].
    apply (proj2 (splitlines_inside _)) in Hin.
    rewrite sql_part_after_last in Hin.
    exact (text_after_last_marker_clean out (occurs_trans _ _ _ Hocc Hin)).
  - discriminate.
  - simpl. intros H. repeat (destruct H as [H|H]; [discriminate H|]). exact H.
Qed.

Lemma filter_all {A} (f : A -> bool) (l : list A) :
  (forall x, In x l -> f x = true) -> filter f l = l.
Proof.
  induction l as [|a l IH]; intros H; [reflexivity|].
  simpl. rewrite (H a (or_introl eq_refl)). f_equal.
  apply IH. intros x Hx. apply H. right. exact Hx.
Qed.

Lemma trimmed_not_line_feed_end (s r : str) : strip s <> r ++ [LF].
Proof.
  intros E. destruct (strip_last s) as [H|(r' & c & H & Hc)]; rewrite H in E.
  - destruct r; discriminate.
  - apply app_inj_tail in E as [_ ->]. discriminate Hc.
Qed.

Lemma draft_lf_only (out : str) : lf_only (extract_output out) = true.
Proof.
  unfold extract_output.
  set (ls := filter keep_line (splitlines (sql_part out))).
  pose proof (lf_only_join ls (kept_lines_breakfree _)) as H.
  destruct (strip_decompose (join [LF] ls)) as (u & v & E & _ & _).
  rewrite E in H. unfold lf_only in *. rewrite !forallb_app in H.
  apply andb_true_iff in H as [_ H]. apply andb_true_iff in H as [H _].
  exact H.
Qed.

(** X6: no line of the extracted draft is a comment: the trimmed content
    of each of its lines does not begin with [#]. *)
Theorem draft_has_no_comment_line (out : str) :
  Forall (fun l => startswith (strip l) (py "#") = false)
         (splitlines (extract_output out)).
Proof.
  apply Forall_forall. intros l Hl.
  apply draft_lines_kept in Hl. unfold keep_line in Hl.
  apply negb_true_iff in Hl. exact Hl.
Qed.

(** X7: the extracted draft never contains the marker [# Output:]. *)
Theorem draft_has_no_marker (out : str) :
  contains (extract_output out) (py "# Output:") = false.
Proof. apply draft_without_marker. Qed.

(** X8: extracting from an extracted draft changes nothing. *)
Theorem extract_output_idempotent (out : str) :
  extract_output (extract_output out) = extract_output out.
Proof.
  set (d := extract_output out).
  assert (Hsp : sql_part d = d).
  { unfold sql_part. unfold d. rewrite draft_without_marker. reflexivity. }
  unfold extract_output at 1. rewrite Hsp.
  rewrite (filter_all keep_line (splitlines d) (draft_lines_kept out)).
  rewrite (join_splitlines d (draft_lf_only out)).
  - unfold d, extract_output. apply strip_idem.
  - intros r. unfold d, extract_output. apply trimmed_not_line_feed_end.
Qed.

(** ** What the fence stripper keeps *)

(** X9: a fenced text that is a single line after trimming, an inline
    block such as [```SELECT 1;```], comes back empty: its only line is
    the opening fence. *)
Theorem strip_fence_single_line (text : str) :
  startswith (strip text) fence = true ->
  breakfree (strip text) = true ->
  _strip_fence text = [].
Proof.
  intros Hf Hb. unfold _strip_fence. rewrite Hf.
  destruct (fence_head _ Hf) as (c & t & E & _).
  rewrite (splitlines_single _ Hb) by (rewrite E; discriminate).
  reflexivity.
Qed.

Lemma strip_fence_single_line_witness :
  let text := py " ```SELECT 1;``` " in
  startswith (strip text) fence = true /\
  breakfree (strip text) = true /\
  _strip_fence text = [].
Proof.
  cbv zeta. split; [reflexivity|]. split; [reflexivity|].
  exact (strip_fence_single_line (py " ```SELECT 1;``` ") eq_refl eq_refl).
Defined.

Lemma join_snoc (sep l : str) (ls : list str) :
  join sep (ls ++ [l]) =
  match ls with
  | [] => l
  | _ :: _ => join sep ls ++ sep ++ l
  end.
Proof.
  induction ls as [|a ls IH]; [reflexivity|].
  change ((a :: ls) ++ [l]) with (a :: (ls ++ [l])).
  rewrite join_cons, IH. destruct ls as [|b ls]; [reflexivity|].
  change ((b :: ls) ++ [l]) with (b :: (ls ++ [l])). cbv iota.
  rewrite (join_cons sep a (b :: ls)), <- !app_assoc. reflexivity.
Qed.

(** A text that opens and closes with characters [strip] keeps is its own
    trimmed form. *)
Lemma strip_fixed_ends (c d : char) (s r : str) :
  isspace c = false -> isspace d = false ->
  c :: s = r ++ [d] -> strip (c :: s) = c :: s.
Proof.
  intros Hc Hd E. unfold strip.
  rewrite (lstrip_fixed (c :: s)) by exact Hc.
  rewrite E. unfold rstrip. rewrite rev_app_distr.
  change (rev [d] ++ rev r) with (d :: rev r).
  cbn [lstrip]. rewrite Hd. cbn [rev]. rewrite rev_involutive. reflexivity.
Qed.

(** X10: unwrapping a fenced block gives its body back.  For a body of
    lines joined by line feeds that is its own trimmed form, the text made
    of an opening fence line with any tag, the body and a closing fence
    line, with any whitespace around it, is stripped to the body. *)
Theorem strip_fence_unwraps_block (tag u v : str) (lines : list str) :
  breakfree tag = true ->
  Forall (fun l => breakfree l = true) lines ->
  strip (join [LF] lines) = join [LF] lines ->
  allspace u = true -> allspace v = true ->
  _strip_fence (u ++ join [LF] ((fence ++ tag) :: lines ++ [fence]) ++ v)
  = join [LF] lines.
Proof.
  intros Htag Hlines Hbody Hu Hv.
  set (W := join [LF] ((fence ++ tag) :: lines ++ [fence])).
  assert (Es : exists s, W = 96%N :: s).
  { unfold W. rewrite join_cons. eexists. reflexivity. }
  assert (Er : exists r, W = r ++ [96%N]).
  { unfold W.
    change ((fence ++ tag) :: lines ++ [fence])
      with (((fence ++ tag) :: lines) ++ [fence]).
    rewrite join_snoc.
    exists (join [LF] ((fence ++ tag) :: lines) ++ [LF] ++ py "``").
    rewrite <- !app_assoc. reflexivity. }
  destruct Es as (s & Es). destruct Er as (r & Er).
  assert (HsW : strip W = W).
  { rewrite Es. apply (strip_fixed_ends 96%N 96%N s r); try reflexivity.
    exact (eq_trans (eq_sym Es) Er). }
  assert (Hfw : startswith W fence = true).
  { unfold W. rewrite join_cons, <- app_assoc. apply startswith_app. }
  assert (Hsplit : splitlines W = (fence ++ tag) :: lines ++ [fence]).
  { unfold W. rewrite splitlines_join.
    - change ((fence ++ tag) :: lines ++ [fence])
        with (((fence ++ tag) :: lines) ++ [fence]).
      rewrite last_last. reflexivity.
    - constructor.
      + unfold breakfree in *. rewrite forallb_app, Htag. reflexivity.
      + apply Forall_app. split; [exact Hlines|]. constructor; [reflexivity|].
        constructor. }
  unfold _strip_fence. rewrite (strip_pad u W v Hu Hv), HsW, Hfw, Hsplit.
  simpl tl. cbv zeta.
  destruct (lines ++ [fence]) as [|x xs] eqn:Eapp.
  - destruct lines; discriminate Eapp.
  - rewrite <- Eapp, last_last, removelast_last.
    change (startswith (strip fence) fence) with true. cbv iota.
    exact Hbody.
Qed.

Lemma strip_fence_unwraps_block_witness :
  let lines := [py "SELECT name"; py "  FROM users;"] in
  breakfree (py "sql") = true /\
  Forall (fun l => breakfree l = true) lines /\
  strip (join [LF] lines) = join [LF] lines /\
  _strip_fence ([LF] ++ join [LF] ((fence ++ py "sql") :: lines ++ [fence])
                ++ [LF])
  = join [LF] lines.
Proof.
  cbv zeta.
  assert (H : Forall (fun l => breakfree l = true)
                [py "SELECT name"; py "  FROM users;"]).
  { repeat constructor. }
  split; [reflexivity|]. split; [exact H|]. split; [reflexivity|].
  exact (strip_fence_unwraps_block (py "sql") [LF] [LF]
           [py "SELECT name"; py "  FROM users;"]
           eq_refl H eq_refl eq_refl eq_refl).
Defined.

Lemma strip_fence_length (text : str) :
  length (_strip_fence text) <= length (strip text).
Proof.
  destruct (startswith (strip text) fence) eqn:E.
  - pose proof (strip_fence_shrinks text E). lia.
  - rewrite (strip_fence_unfenced text E). lia.
Qed.

Lemma strip_fence_iter_trimmed (n : nat) (t : str) :
  strip t = t -> length t <= n ->
  exists k, k <= length t /\
    _strip_fence (Nat.iter k _strip_fence t) = Nat.iter k _strip_fence t /\
    startswith (Nat.iter k _strip_fence t) fence = false.
Proof.
  revert t. induction n as [|n IH]; intros t Ht Hn.
  - destruct t; [|simpl in Hn; lia]. exists 0. repeat split; reflexivity.
  - destruct (startswith t fence) eqn:E.
    + rewrite <- Ht in E. pose proof (strip_fence_shrinks t E) as Hlt.
      rewrite Ht in Hlt.
      destruct (IH (_strip_fence t) (strip_fence_trimmed t)) as (k & Hk & Hfix).
      { lia. }
      exists (S k). split; [lia|]. rewrite Nat.iter_succ_r. exact Hfix.
    + exists 0. split; [lia|]. simpl. split; [|exact E].
      rewrite <- Ht in E. rewrite (strip_fence_unfenced t E). exact Ht.
Qed.

(** X11: stripping fences again and again comes to rest: after at most
    [len(x) + 1] applications the text is unfenced and a further
    application changes nothing. *)
Theorem strip_fence_reaches_fixed_point (x : str) :
  exists n, n <= length x /\
    _strip_fence (Nat.iter (S n) _strip_fence x)
      = Nat.iter (S n) _strip_fence x /\
    startswith (Nat.iter (S n) _strip_fence x) fence = false.
Proof.
  destruct (strip_fence_iter_trimmed (length (_strip_fence x)) (_strip_fence x)
              (strip_fence_trimmed x) (le_n _)) as (k & Hk & Hfix).
  exists k. split.
  - pose proof (strip_fence_length x). pose proof (strip_length x). lia.
  - rewrite Nat.iter_succ_r. exact Hfix.
Qed.

Lemma strip_fence_line_origin (text l' : str) :
  In l' (splitlines (_strip_fence text)) ->
  exists l u v, In l (splitlines text) /\ l = u ++ l' ++ v /\
                allspace u = true /\ allspace v = true.
Proof.
  unfold _strip_fence. destruct (startswith (strip text) fence).
  - cbv zeta. intros Hl.
    set (body := tl (splitlines (strip text))) in *.
    set (kept := match body with
                 | [] => body
                 | _ :: _ => if startswith (strip (last body [])) fence
                             then removelast body else body
                 end) in *.
    assert (Hkept : forall l, In l kept -> In l (splitlines (strip text))).
    { intros l Hin.
      assert (Hb : In l body).
      { unfold kept in Hin. destruct body as [|b bs] eqn:Eb; [exact Hin|].
        destruct (startswith (strip (last (b :: bs) [])) fence);
          [|exact Hin].
        rewrite (app_removelast_last [] (l := b :: bs)) by discriminate.
        apply in_or_app. left. exact Hin. }
      unfold body in Hb. destruct (splitlines (strip text)); [destruct Hb|].
      right. exact Hb. }
    destruct (splitlines_strip_In _ _ Hl) as (l1 & u1 & v1 & H1 & E1 & Hu1 & Hv1).
    apply splitlines_join_In in H1.
    + apply Hkept in H1.
      destruct (splitlines_strip_In _ _ H1) as (l & u & v & H & E & Hu & Hv).
      exists l, (u ++ u1), (v1 ++ v). split; [exact H|].
      split; [subst; rewrite <- !app_assoc; reflexivity|].
      unfold allspace in *. rewrite !forallb_app, Hu, Hu1, Hv, Hv1. auto.
    + apply Forall_forall. intros l Hin.
      exact (splitlines_breakfree _ _ (Hkept l Hin)).
  - apply splitlines_strip_In.
Qed.

(** X12: the fence stripper invents nothing: every line of its result is
    a line of the text it was given, less some whitespace at its ends. *)
Theorem strip_fence_lines_from_input (text l' : str) :
  In l' (splitlines (_strip_fence text)) ->
  exists l u v, In l (splitlines text) /\ l = u ++ l' ++ v /\
                allspace u = true /\ allspace v = true.
Proof. apply strip_fence_line_origin. Qed.

Lemma strip_fence_lines_from_input_witness :
  let text := py "```sql" ++ [LF] ++ py "  SELECT 1; " ++ [LF] ++ py "```" in
  In (py "SELECT 1;") (splitlines (_strip_fence text)) /\
  exists l u v, In l (splitlines text) /\ l = u ++ py "SELECT 1;" ++ v /\
                allspace u = true /\ allspace v = true.
Proof.
  cbv zeta.
  assert (H : In (py "SELECT 1;")
                (splitlines (_strip_fence (py "```sql" ++ [LF]
                   ++ py "  SELECT 1; " ++ [LF] ++ py "```")))).
  { left. reflexivity. }
  split; [exact H|].
  exact (strip_fence_lines_from_input _ _ H).
Defined.

(** ** The offline pipeline end to end *)

(** X19: without a credential, no line of the final text that the
    pipeline returns for the generator of the source is a comment: the
    trimmed content of each of its lines does not begin with [#]. *)
Theorem offline_final_sql_has_no_comment_line
    (key : option str) (OpenAI : service) (pipe : str -> result str)
    (request final : str) :
  no_key key = true ->
  value (text_to_sql key OpenAI (SQLGenerator pipe) request) = Ok final ->
  Forall (fun l => startswith (strip l) (py "#") = false) (splitlines final).
Proof.
  intros Hk. rewrite (text_to_sql_without_key key OpenAI _ request Hk).
  cbn [generate SQLGenerator].
  destruct (pipe (build_prompt (strip request))) as [out|e];
    [|discriminate].
  cbn. intros H. injection H as <-.
  apply Forall_forall. intros l' Hl.
  destruct (strip_fence_line_origin _ _ Hl) as (l & u & v & Hin & E & Hu & Hv).
  apply draft_lines_kept in Hin. unfold keep_line in Hin.
  rewrite E, (strip_pad u l' v Hu Hv) in Hin.
  apply negb_true_iff in Hin. exact Hin.
Qed.

Lemma offline_final_sql_has_no_comment_line_witness :
  let pipe := fun prompt : str =>
    Ok (prompt ++ py " SELECT 1;" ++ [LF] ++ py "# Input: next") in
  no_key None = true /\
  value (text_to_sql None unreachable_service (SQLGenerator pipe)
           (py "count users")) = Ok (py "SELECT 1;") /\
  Forall (fun l => startswith (strip l) (py "#") = false)
         (splitlines (py "SELECT 1;")).
Proof.
  cbv zeta. split; [reflexivity|]. split; [vm_compute; reflexivity|].
  exact (offline_final_sql_has_no_comment_line None unreachable_service
           (fun prompt : str =>
              Ok (prompt ++ py " SELECT 1;" ++ [LF] ++ py "# Input: next"))
           (py "count users") (py "SELECT 1;") eq_refl
           ltac:(vm_compute; reflexivity)).
Defined.

(** * The command-line loop *)

Section CLIFacts.

Variable key : option str.
Variable OpenAI : service.
Variable gen : Generator.

(** What the terminal shows for one non-blank line. *)
Local Abbreviation turn :=
  (fun l => Asked (py "Prompt> ") :: cli_answer key OpenAI gen (strip l)).

Lemma cli_loop_nonblank (pre rest : list str) :
  Forall (fun l => strip l <> []) pre ->
  cli_loop key OpenAI gen (pre ++ rest) =
  (flat_map turn pre ++ fst (cli_loop key OpenAI gen rest),
   snd (cli_loop key OpenAI gen rest)).
Proof.
  induction pre as [|l pre IH]; intros H.
  - simpl. destruct (cli_loop key OpenAI gen rest); reflexivity.
  - inversion H as [|? ? Hl Hpre]; subst.
    change ((l :: pre) ++ rest) with (l :: (pre ++ rest)).
    cbn [cli_loop flat_map]. rewrite (IH Hpre).
    destruct (strip l) as [|c q] eqn:E; [contradiction|].
    cbv zeta. cbn [fst snd]. rewrite <- E.
    simpl. rewrite <- app_assoc. reflexivity.
Qed.

(** X13: the session ends, with [break], at the first line that is blank
    once trimmed: the banner is printed, every line before the blank one
    is prompted for and answered in order, the blank line is prompted for,
    and nothing typed after it is read. *)
Theorem cli_ends_at_first_blank_line (pre rest : list str) (blank : str) :
  Forall (fun l => strip l <> []) pre ->
  strip blank = [] ->
  cli_main key OpenAI gen (pre ++ blank :: rest) =
  (Printed banner :: flat_map turn pre ++ [Asked (py "Prompt> ")], Break).
Proof.
  intros Hpre Hb. unfold cli_main.
  rewrite (cli_loop_nonblank pre (blank :: rest) Hpre).
  cbn [cli_loop]. rewrite Hb. reflexivity.
Qed.

(** X14: when the input runs out before a blank line is typed, every line
    is answered and the loop then ends with the [EOFError] of the last
    [input] call. *)
Theorem cli_raises_at_end_of_input (inputs : list str) :
  Forall (fun l => strip l <> []) inputs ->
  cli_main key OpenAI gen inputs =
  (Printed banner :: flat_map turn inputs ++ [Asked (py "Prompt> ")],
   EOFError).
Proof.
  intros H. unfold cli_main.
  rewrite <- (app_nil_r inputs) at 1.
  rewrite (cli_loop_nonblank inputs [] H). reflexivity.
Qed.

(** X15: the answer to a line.  When the generator raises, or when it
    returns a draft and, a credential being configured, the import or the
    construction of the client raises, the answer is the single line
    [[ERROR]] followed by the text of the exception, and the loop goes on.
    In every other case the answer ends with the final text between two
    line feeds, the final text has no whitespace at its ends, and at most
    one line, the report of a failed round trip, comes before it. *)
Theorem cli_answer_shape (q : str) :
  (forall e, generate gen (strip q) = Raise e ->
     cli_answer key OpenAI gen q
       = [Printed (py "[ERROR] " ++ message e ++ [LF])])
  /\ (forall draft e, generate gen (strip q) = Ok draft ->
        client_failure key OpenAI = Some e ->
        cli_answer key OpenAI gen q
          = [Printed (py "[ERROR] " ++ message e ++ [LF])])
  /\ (forall draft, generate gen (strip q) = Ok draft ->
        client_failure key OpenAI = None ->
        exists final,
          value (text_to_sql key OpenAI gen q) = Ok final /\
          strip final = final /\
          last (cli_answer key OpenAI gen q) (Asked [])
            = Printed ([LF] ++ final ++ [LF]) /\
          length (cli_answer key OpenAI gen q) <= 2).
Proof.
  unfold cli_answer, text_to_sql, bind, lift, value. split; [|split].
  - intros e He. rewrite He. reflexivity.
  - intros draft e Hd Hcf. rewrite Hd.
    rewrite (refine_raises key OpenAI _ draft e Hcf). reflexivity.
  - intros draft Hd Hcf. rewrite Hd.
    destruct (no_key key) eqn:Hk.
    + rewrite (refine_without_key key OpenAI _ draft Hk). unfold ret.
      exists (_strip_fence draft). cbn.
      repeat split; auto using strip_fence_trimmed.
    + unfold client_failure in Hcf.
      destruct key as [[|c k]|]; try discriminate Hk.
      rewrite refine_with_key by discriminate.
      destruct (OpenAI (c :: k)) as [client|e]; [|discriminate Hcf].
      destruct (remote_round_trip client (strip q) draft) as [r|e];
        unfold ret; eexists; cbn;
        repeat split; auto using strip_fence_trimmed.
Qed.

End CLIFacts.

Lemma cli_ends_at_first_blank_line_witness :
  let pre := [py "list users"; py " count orders "] in
  Forall (fun l => strip l <> []) pre /\
  strip (py "   ") = [] /\
  snd (cli_main None unreachable_service (echo_generator scenario_draft)
         (pre ++ py "   " :: [py "never read"])) = Break.
Proof.
  cbv zeta.
  assert (H : Forall (fun l => strip l <> [])
                [py "list users"; py " count orders "]).
  { repeat constructor; vm_compute; discriminate. }
  split; [exact H|]. split; [reflexivity|].
  rewrite (cli_ends_at_first_blank_line None unreachable_service
             (echo_generator scenario_draft)
             [py "list users"; py " count orders "] [py "never read"]
             (py "   ") H eq_refl).
  reflexivity.
Defined.

Lemma cli_raises_at_end_of_input_witness :
  Forall (fun l => strip l <> []) [py "list users"] /\
  snd (cli_main None unreachable_service (echo_generator scenario_draft)
         [py "list users"]) = EOFError.
Proof.
  assert (H : Forall (fun l => strip l <> []) [py "list users"]).
  { repeat constructor; vm_compute; discriminate. }
  split; [exact H|].
  rewrite (cli_raises_at_end_of_input None unreachable_service
             (echo_generator scenario_draft) [py "list users"] H).
  reflexivity.
Defined.

Lemma cli_answer_shape_witness :
  let gen := {| generate := fun _ => Raise (Exn RuntimeError (py "CUDA out of memory")) |} in
  generate gen (strip (py "list users"))
    = Raise (Exn RuntimeError (py "CUDA out of memory")) /\
  cli_answer None unreachable_service gen (py "list users")
    = [Printed (py "[ERROR] CUDA out of memory" ++ [LF])].
Proof.
  cbv zeta. split; [reflexivity|].
  exact (proj1 (cli_answer_shape None unreachable_service
           {| generate := fun _ =>
                Raise (Exn RuntimeError (py "CUDA out of memory")) |}
           (py "list users")) _ eq_refl).
Defined.

(** * The window *)

Lemma handle_consistent (shown : str -> str) (c : call) (app : App) :
  window_consistent app -> window_consistent (fst (handle shown c app)).
Proof.
  intros (H1 & H2 & H3). unfold window_consistent.
  destruct c; cbn [handle]; unfold on_convert, on_record_toggle, on_save.
  - destruct (strip (input_text app)); cbn; auto.
  - cbn. auto.
  - cbn. auto.
  - destruct (is_recording app); cbn; auto.
  - cbn. auto.
  - cbn. auto.
  - destruct (strip (output_text app)); [cbn; auto|].
    destruct filename; cbn; auto.
  - cbn. auto.
Qed.

(** X16: whatever slots are called, in whatever order and with whatever
    arguments, starting from the window as it is built: Convert and Save
    are enabled together, Convert is disabled whenever the record button
    is, and the caption of the record button tells whether a recording is
    on. *)
Theorem window_stays_consistent (shown : str -> str) (cs : list call) :
  let app := run_calls shown cs initial_app in
  run_enabled app = save_enabled app
  /\ (voice_enabled app = false -> run_enabled app = false)
  /\ voice_caption app
     = if is_recording app then stop_caption else start_caption.
Proof.
  cbv zeta. change (window_consistent (run_calls shown cs initial_app)).
  assert (H0 : window_consistent initial_app).
  { repeat split. intros H. discriminate H. }
  revert H0. generalize initial_app. unfold run_calls.
  induction cs as [|c cs IH]; intros app H; [exact H|].
  simpl. apply IH. apply handle_consistent. exact H.
Qed.

(** X17: a click on Convert.  With a blank input the window only warns:
    no worker is started and nothing changes.  Otherwise one worker is
    started for the trimmed input, and when its signal is delivered the
    three buttons are enabled again.  If the generator raised, or if it
    returned a draft and, a credential being configured, the import or the
    construction of the client raised, the output edit is untouched, the
    status is [Error.] and the text of the exception is shown in a dialog.
    In every other case the output edit shows the final text the pipeline
    gives for the input as typed and the status is [Done.] (also when the
    round trip failed). *)
Theorem convert_round_outcome
    (shown : str -> str) (key : option str) (OpenAI : service)
    (gen : Generator) (app : App) :
  match strip (input_text app) with
  | [] =>
      convert_round shown key OpenAI gen app
      = (app, [Warning (py "Input Required") (py "Please enter a prompt.")])
  | prompt =>
      let '(app', effects) := convert_round shown key OpenAI gen app in
      let failed (e : exn) :=
        output_text app' = output_text app /\
        status app' = py "Error." /\
        effects = [StartSQLWorker prompt;
                   Critical (py "Generation Error") (message e)] in
      run_enabled app' = true /\ voice_enabled app' = true /\
      save_enabled app' = true /\
      input_text app' = input_text app /\
      match generate gen prompt with
      | Ok _ =>
          match client_failure key OpenAI with
          | Some e => failed e
          | None =>
              exists final,
                value (text_to_sql key OpenAI gen (input_text app))
                  = Ok final /\
                output_text app' = shown final /\
                status app' = py "Done." /\
                effects = [StartSQLWorker prompt]
          end
      | Raise e => failed e
      end
  end.
Proof.
  unfold convert_round, on_convert.
  destruct (strip (input_text app)) as [|c p] eqn:Ep; [reflexivity|].
  unfold SQLWorker_run.
  rewrite (text_to_sql_value key OpenAI gen (input_text app)), Ep.
  rewrite (text_to_sql_value key OpenAI gen (c :: p)).
  assert (Hs : strip (c :: p) = c :: p) by (rewrite <- Ep; apply strip_idem).
  rewrite Hs.
  destruct (generate gen (c :: p)) as [draft|e].
  - destruct (client_failure key OpenAI) as [e|] eqn:Hcf.
    + rewrite (refine_raises key OpenAI (c :: p) draft e Hcf).
      cbn. repeat split.
    + destruct (refine_returns key OpenAI (c :: p) draft Hcf) as (r & Hr).
      rewrite Hr. cbn. repeat split. exists (_strip_fence r). auto.
  - cbn. repeat split.
Qed.

(** X18: Save writes a file exactly when the trimmed output is not empty
    and the dialog returned a file name; the file is the one named, its
    content is the trimmed output, so it is never empty and has no
    whitespace at its ends, and the status then names the file.  In every
    other case the window is left as it was. *)
Theorem on_save_writes_trimmed_output (filename f c : str) (app : App) :
  (In (WriteFile f c) (snd (on_save filename app)) <->
   f = filename /\ filename <> [] /\
   c = strip (output_text app) /\ c <> [])
  /\ (In (WriteFile f c) (snd (on_save filename app)) ->
      no_outer_whitespace c /\
      status (fst (on_save filename app)) = py "Saved to " ++ f)
  /\ ((filename = [] \/ strip (output_text app) = []) ->
      fst (on_save filename app) = app).
Proof.
  unfold on_save.
  destruct (strip (output_text app)) as [|d s] eqn:Es.
  - cbn. split; [split|split].
    + intros [H|[]]. discriminate H.
    + intros (_ & _ & Hc & Hne). contradiction.
    + intros [H|[]]. discriminate H.
    + reflexivity.
  - destruct filename as [|a fn]; cbn.
    + split; [split|split].
      * intros [H|[]]. discriminate H.
      * intros (_ & Hfn & _). contradiction.
      * intros [H|[]]. discriminate H.
      * reflexivity.
    + split; [split|split].
      * intros [H|[H|[]]]; [discriminate H|]. injection H as <- <-.
        repeat split; try reflexivity; discriminate.
      * intros (-> & _ & -> & _). right. left. reflexivity.
      * intros [H|[H|[]]]; [discriminate H|]. injection H as <- <-.
        split; [|reflexivity]. rewrite <- Es. apply strip_no_outer_whitespace.
      * intros [H|H]; discriminate H.
Qed.

Lemma on_save_writes_trimmed_output_witness :
  let app := set_output_text (py " SELECT 1; ") initial_app in
  In (WriteFile (py "q.sql") (py "SELECT 1;"))
     (snd (on_save (py "q.sql") app)) /\
  status (fst (on_save (py "q.sql") app)) = py "Saved to q.sql".
Proof.
  cbv zeta.
  assert (H : In (WriteFile (py "q.sql") (py "SELECT 1;"))
                (snd (on_save (py "q.sql")
                        (set_output_text (py " SELECT 1; ") initial_app)))).
  { right. left. reflexivity. }
  split; [exact H|].
  exact (proj2 (proj1 (proj2 (on_save_writes_trimmed_output
           (py "q.sql") (py "q.sql") (py "SELECT 1;")
           (set_output_text (py " SELECT 1; ") initial_app))) H)).
Defined.
